(** * scripts/sync-tfvars-to-env.py: terraform.tfvars to .env synchronizer

    A shallow embedding of the script's functions ([parse_tfvars],
    [parse_value], [format_env_value], [read_env_file], [write_env_file],
    [sync_tfvars_to_env]) and the properties of them that the repository's
    specification states.

    Conventions of the embedding.
    - Text is a [string] of 8-bit characters and stands for ASCII text: the
      character classes and case mappings below are Python's on code points
      below 128.
    - A file holds the characters that were written to it (on a system
      whose line separator is the newline); reading in text mode translates
      every carriage return, alone or before a newline, to a newline
      ([universal_newlines]). A file system gives the file each path leads
      to, and the text of each file that exists: two spellings or links of
      one file lead to one file.
    - A Python dict that is iterated in insertion order ([tfvars]) is an
      association list; a dict that is only looked up, assigned, measured and
      iterated through [sorted] ([env_vars]) is a [gmap].
    - [print] calls are not modelled; the counts that [sync_tfvars_to_env]
      prints are returned in a record.
    - The interpreter's recursion limit is the fuel of [parse_value_fuel]:
      [parse_value_within] raises [RecursionError] when it is passed, and
      [parse_value] is the value returned whenever it is not. The
      configurable digit limit of int/str conversions is outside the
      model.
    - [sync_tfvars_to_env] is the run in which nothing raises: no file
      operation is refused and the recursion limit is not reached;
      [sync_run] is the run under a fault. *)

From stdpp Require Import base option list gmap strings sorting pretty.
From Stdlib Require Import ZArith Ascii String.

Local Open Scope string_scope.
Set Warnings "-register-all".

(** ** Python str methods, on ASCII text *)

Module PyStr.

Definition code (c : ascii) : N := N_of_ascii c.

Definition in_range (lo hi : N) (c : ascii) : bool :=
  ((lo <=? code c) && (code c <=? hi))%N.

(** [str.isspace] of one character: TAB..CR, FS..US and the space. *)
Definition is_space (c : ascii) : bool :=
  in_range 9 13 c || in_range 28 32 c.

Definition is_digit (c : ascii) : bool := in_range 48 57 c.

Definition lower_char (c : ascii) : ascii :=
  if in_range 65 90 c then ascii_of_N (code c + 32) else c.

Definition upper_char (c : ascii) : ascii :=
  if in_range 97 122 c then ascii_of_N (code c - 32) else c.

Fixpoint map_chars (f : ascii -> ascii) (s : string) : string :=
  match s with
  | EmptyString => EmptyString
  | String c s' => String (f c) (map_chars f s')
  end.

(** [s.lower()] and [s.upper()] *)
Definition lower : string -> string := map_chars lower_char.
Definition upper : string -> string := map_chars upper_char.

Definition is_empty (s : string) : bool :=
  match s with EmptyString => true | String _ _ => false end.

(** [s.lstrip()], [s.rstrip()], [s.strip()] *)
Fixpoint lstrip (s : string) : string :=
  match s with
  | EmptyString => EmptyString
  | String c s' => if is_space c then lstrip s' else s
  end.

Fixpoint rstrip (s : string) : string :=
  match s with
  | EmptyString => EmptyString
  | String c s' =>
      let r := rstrip s' in
      if is_empty r && is_space c then EmptyString else String c r
  end.

Definition strip (s : string) : string := rstrip (lstrip s).

(** [s.startswith(p)] *)
Fixpoint startswith (p s : string) : bool :=
  match p, s with
  | EmptyString, _ => true
  | String _ _, EmptyString => false
  | String a p', String b s' => Ascii.eqb a b && startswith p' s'
  end.

(** [s.endswith(p)]: [p] is [s] or a suffix of the tail of [s]. *)
Fixpoint endswith (p s : string) : bool :=
  String.eqb p s
  || match s with
     | EmptyString => false
     | String _ s' => endswith p s'
     end.

(** [p in s] *)
Fixpoint contains (p s : string) : bool :=
  startswith p s
  || match s with
     | EmptyString => false
     | String _ s' => contains p s'
     end.

(** [s.count(c)] for a one-character [c] *)
Fixpoint count (c : ascii) (s : string) : Z :=
  match s with
  | EmptyString => 0
  | String a s' => ((if Ascii.eqb a c then 1 else 0) + count c s')%Z
  end.

(** [s.partition(c)] for a one-character [c]: the text before the first
    [c], the separator found (empty when there is none) and the text after
    it. *)
Fixpoint partition (c : ascii) (s : string) : string * string * string :=
  match s with
  | EmptyString => (EmptyString, EmptyString, EmptyString)
  | String a s' =>
      if Ascii.eqb a c then (EmptyString, String c EmptyString, s')
      else let '(b, m, r) := partition c s' in (String a b, m, r)
  end.

(** [s.split(c)] for a one-character [c]; the result is never empty. *)
Fixpoint split (c : ascii) (s : string) : list string :=
  match s with
  | EmptyString => [EmptyString]
  | String a s' =>
      if Ascii.eqb a c then EmptyString :: split c s'
      else match split c s' with
           | h :: t => String a h :: t
           | [] => [String a EmptyString]
           end
  end.

(** [s[:-1]] *)
Fixpoint drop_last (s : string) : string :=
  match s with
  | EmptyString => EmptyString
  | String c s' => if is_empty s' then EmptyString else String c (drop_last s')
  end.

Definition tail (s : string) : string :=
  match s with EmptyString => EmptyString | String _ s' => s' end.

(** [s[1:-1]] *)
Definition slice_1_m1 (s : string) : string := drop_last (tail s).

(** [s.replace(c, r)] for a one-character [c] *)
Fixpoint replace (c : ascii) (r : string) (s : string) : string :=
  match s with
  | EmptyString => EmptyString
  | String a s' => (if Ascii.eqb a c then r else String a EmptyString) +:+ replace c r s'
  end.

(** [sep.join(l)] *)
Definition join (sep : string) (l : list string) : string := String.concat sep l.

(** What text mode gives when a file is read (newline=None): a carriage
    return, alone or with the newline after it, becomes one newline. *)
Fixpoint universal_newlines (s : string) : string :=
  match s with
  | EmptyString => EmptyString
  | String c s' =>
      if Ascii.eqb c "013"%char then
        String "010"%char
          match s' with
          | EmptyString => EmptyString
          | String c' s'' =>
              if Ascii.eqb c' "010"%char then universal_newlines s''
              else universal_newlines s'
          end
      else String c (universal_newlines s')
  end.

(** [f.readlines()]: the lines of a text, each with its newline. *)
Fixpoint readlines_go (cur : string) (s : string) : list string :=
  match s with
  | EmptyString => if is_empty cur then [] else [String.rev cur]
  | String c s' =>
      if Ascii.eqb c "010"%char then String.rev (String c cur) :: readlines_go EmptyString s'
      else readlines_go (String c cur) s'
  end.

Definition readlines (s : string) : list string := readlines_go EmptyString s.

End PyStr.

Import PyStr.

(** The characters the script names. *)
Definition dquote : ascii := "034"%char.
Definition squote : ascii := "039"%char.
Definition backslash : ascii := "092"%char.
Definition str1 (c : ascii) : string := String c EmptyString.


(** ** Python numbers: [int(s)], [float(s)] and [str] of an int *)

Module PyNum.

Definition split_sign (s : string) : bool * string :=
  match s with
  | String "-" s' => (true, s')
  | String "+" s' => (false, s')
  | _ => (false, s)
  end.

(** An underscore must stand between two digits. *)
Fixpoint underscores_ok (prev : ascii) (s : string) : bool :=
  match s with
  | EmptyString => negb (Ascii.eqb prev "_")
  | String c s' =>
      (if Ascii.eqb c "_" then is_digit prev
       else if Ascii.eqb prev "_" then is_digit c else true)
      && underscores_ok c s'
  end.

Fixpoint remove_underscores (s : string) : string :=
  match s with
  | EmptyString => EmptyString
  | String c s' =>
      if Ascii.eqb c "_" then remove_underscores s' else String c (remove_underscores s')
  end.

Fixpoint all_digits (s : string) : bool :=
  match s with
  | EmptyString => true
  | String c s' => is_digit c && all_digits s'
  end.

Fixpoint digits_value (acc : N) (s : string) : N :=
  match s with
  | EmptyString => acc
  | String c s' => digits_value (10 * acc + (code c - 48))%N s'
  end.

(** The longest prefix of digits, and the rest. *)
Fixpoint span_digits (s : string) : string * string :=
  match s with
  | EmptyString => (EmptyString, EmptyString)
  | String c s' =>
      if is_digit c then let '(d, r) := span_digits s' in (String c d, r)
      else (EmptyString, s)
  end.

(** [int(s)] in base 10: surrounding whitespace, an optional sign, digits
    with single underscores between them. [None] is [ValueError]. *)
Definition py_int (s : string) : option Z :=
  let s := strip s in
  let '(neg, body) := split_sign s in
  let ds := remove_underscores body in
  if underscores_ok "000" body && negb (is_empty ds) && all_digits ds then
    let n := Z.of_N (digits_value 0 ds) in
    Some (if neg then (- n)%Z else n)
  else None.

(** What [float(s)] reads: the decimal numeral, before it is rounded to a
    binary64. [FDec neg m e] is (-1)^neg * m * 10^e. *)
Inductive float_lit : Type :=
| FInf (neg : bool)
| FNan (neg : bool)
| FDec (neg : bool) (mantissa : N) (exp10 : Z).

(** [float(s)]: surrounding whitespace, an optional sign, then inf,
    infinity or nan in any case, or digits with an optional point and an
    optional exponent; underscores between digits. [None] is
    [ValueError]. *)
Definition py_float (s : string) : option float_lit :=
  let s := strip s in
  if negb (underscores_ok "000" s) then None else
  let s := remove_underscores s in
  let '(neg, body) := split_sign s in
  let word := lower body in
  if String.eqb word "inf" || String.eqb word "infinity" then Some (FInf neg)
  else if String.eqb word "nan" then Some (FNan neg)
  else
    let '(ip, r1) := span_digits body in
    let '(fp, r2) :=
      match r1 with
      | String "." r => span_digits r
      | _ => (EmptyString, r1)
      end in
    if is_empty ip && is_empty fp then None else
    let m := digits_value 0 (ip +:+ fp) in
    let scale := (- Z.of_nat (String.length fp))%Z in
    match r2 with
    | EmptyString => Some (FDec neg m scale)
    | String e r3 =>
        if Ascii.eqb e "e" || Ascii.eqb e "E" then
          let '(eneg, r4) := split_sign r3 in
          let '(ed, r5) := span_digits r4 in
          if negb (is_empty ed) && is_empty r5 then
            let x := Z.of_N (digits_value 0 ed) in
            Some (FDec neg m ((if eneg then - x else x) + scale)%Z)
          else None
        else None
    end.

(** [str(n)] of an int *)
Definition str_int (z : Z) : string := pretty z.

End PyNum.

Import PyNum.

(** ** Values: what [parse_value] returns *)

(** The Python objects [parse_value] builds: [None], a bool, an int, a float,
    a str or a list of such objects. A map literal is returned as a str (the
    literal text); no dict is ever built. A float is carried as the numeral
    that was read. *)
Inductive Value : Type :=
| VNone
| VBool (b : bool)
| VInt (z : Z)
| VFloat (f : float_lit)
| VStr (s : string)
| VList (items : list Value).

Definition nonempty (s : string) : bool := negb (is_empty s).

(** The body of [parse_value]; the argument [parse_value] stands for the
    recursive call on a list item. The [try] block is the [match]: the
    conversion's [None] is the [ValueError] that the [except] clause passes
    over. *)
Definition parse_value_body (parse_value : string -> option Value) (value : string)
    : option Value :=
  let value := strip value in
  let value := if endswith "," value then strip (drop_last value) else value in
  if String.eqb (lower value) "true" then Some (VBool true) else
  if String.eqb (lower value) "false" then Some (VBool false) else
  if String.eqb (lower value) "null" then Some VNone else
  if startswith (str1 dquote) value && endswith (str1 dquote) value
  then Some (VStr (slice_1_m1 value)) else
  match (if contains "." value
         then VFloat <$> py_float value
         else VInt <$> py_int value) with
  | Some number => Some number
  | None =>
      if startswith "[" value && endswith "]" value then
        let inner := strip (slice_1_m1 value) in
        if is_empty inner then Some (VList [])
        else VList <$> mapM parse_value
                            (List.filter nonempty (List.map strip (split "," inner)))
      else if startswith "{" value && endswith "}" value then Some (VStr value)
      else Some (VStr value)
  end.

(** [parse_value] where the interpreter still allows [fuel] nested calls of
    it. The call that would go deeper raises [RecursionError], here [None];
    the recursive call stands after the [try] block and in no other, so the
    error leaves every enclosing call of [parse_value]. *)
Fixpoint parse_value_fuel (fuel : nat) : string -> option Value :=
  match fuel with
  | O => fun _ => None
  | S fuel' => parse_value_body (parse_value_fuel fuel')
  end.



(** [parse_value] where the recursion limit is not reached. The recursion
    goes into strictly shorter texts, so one call more than the text has
    characters is always enough ([parse_value_fuel_enough]). *)
Definition parse_value (value : string) : Value :=
  default VNone (parse_value_fuel (S (String.length value)) value).

(** ** The assignment scanner: [parse_tfvars] *)

(** The dict [variables]: keys in the order of their first assignment. *)
Definition tfvars_dict : Type := list (string * Value).

(** [d[k] = v] *)
Fixpoint dict_set (d : tfvars_dict) (k : string) (v : Value) : tfvars_dict :=
  match d with
  | [] => [(k, v)]
  | (k', v') :: d' =>
      if String.eqb k' k then (k', v) :: d' else (k', v') :: dict_set d' k v
  end.

Fixpoint dict_get (d : tfvars_dict) (k : string) : option Value :=
  match d with
  | [] => None
  | (k', v') :: d' => if String.eqb k' k then Some v' else dict_get d' k
  end.

(** Opening minus closing brackets of one line. *)
Definition bracket_delta (s : string) : Z :=
  (count "{" s + count "[" s - (count "}" s + count "]" s))%Z.

(** The inner [while i < len(lines) and bracket_count > 0] loop; [rest] is
    [lines[i:]]. Returns [multi_value] and [i] at the loop's exit. *)
Fixpoint collect_multiline (rest : list string) (i : nat)
    (multi_value : list string) (bracket_count : Z) : list string * nat :=
  match rest with
  | [] => (multi_value, i)
  | raw :: rest' =>
      if (0 <? bracket_count)%Z then
        let next_line := strip raw in
        if nonempty next_line && negb (startswith "#" next_line) then
          collect_multiline rest' (S i) (multi_value ++ [next_line])
                            (bracket_count + bracket_delta next_line)
        else collect_multiline rest' (S i) multi_value bracket_count
      else (multi_value, i)
  end.

(** The outer [while i < len(lines)] loop, one iteration per unit of fuel;
    [i] grows in every iteration, so [length lines] iterations are enough
    ([parse_lines_fuel_enough]). *)
Fixpoint parse_lines (fuel : nat) (lines : list string) (i : nat)
    (variables : tfvars_dict) : tfvars_dict :=
  match fuel with
  | O => variables
  | S fuel' =>
      match lines !! i with
      | None => variables
      | Some raw =>
          let line := strip raw in
          if is_empty line || startswith "#" line || startswith "//" line then
            parse_lines fuel' lines (S i) variables
          else if contains "=" line then
            let '(key, _, value) := partition "=" line in
            let key := strip key in
            let value := strip value in
            let value :=
              if contains "#" value then strip (hd EmptyString (split "#" value))
              else value in
            if endswith "{" value || endswith "[" value then
              let '(multi_value, i') :=
                collect_multiline (drop (S i) lines) (S i) [value] (bracket_delta value) in
              let value := join " " multi_value in
              parse_lines fuel' lines (S i') (dict_set variables key (parse_value value))
            else
              parse_lines fuel' lines (S i) (dict_set variables key (parse_value value))
          else parse_lines fuel' lines (S i) variables
      end
  end.

(** The body of [parse_tfvars] once the file is read. *)
Definition parse_tfvars_text (text : string) : tfvars_dict :=
  let lines := readlines text in
  parse_lines (List.length lines) lines 0 [].

(** ** Paths, files and outcomes *)

(** A [pathlib.Path], by its anchor and its components. *)
Record Path : Type := mkPath { anchor : string; parts : list string }.

Global Instance Path_eq_dec : EqDecision Path.
Proof. solve_decision. Defined.

(** [p.name]: the final component, empty when there is none. *)
Definition path_name (p : Path) : string := List.last (parts p) EmptyString.

(** A file, whatever the paths that lead to it. *)
Definition FileId : Type := N.

(** The file system: the file each path leads to (the same file for two
    spellings of a path and for links), and the characters each file that
    exists holds. A path leads to a regular file or to nothing; a path that
    exists and cannot be opened (a directory, a file without permission) is
    a fault of the run ([Fault]). *)
Record FS : Type := mkFS {
  resolve : Path -> FileId;
  content : FileId -> option string
}.

(** The characters of the file at a path, when the file exists. *)
Definition fs_read (fs : FS) (p : Path) : option string := content fs (resolve fs p).
Coercion fs_read : FS >-> Funclass.

(** The file at [p] after it was opened in mode w and [text] was written:
    created or emptied, then filled. Every path to that file sees it. *)
Definition fs_write (fs : FS) (p : Path) (text : string) : FS :=
  mkFS (resolve fs)
       (fun i => if decide (i = resolve fs p) then Some text else content fs i).

(** How a call ends: it returns, or [sys.exit] ends the process. *)
Inductive Outcome (A : Type) : Type :=
| Returned (a : A)
| SystemExit (status : Z).
Arguments Returned {A} a.
Arguments SystemExit {A} status.

(** [parse_tfvars]: a missing file is reported and ends the process with
    status 1; the file is read in text mode. *)
Definition parse_tfvars (fs : FS) (tfvars_file : Path) : Outcome tfvars_dict :=
  match fs tfvars_file with
  | None => SystemExit 1
  | Some text => Returned (parse_tfvars_text (universal_newlines text))
  end.

(** ** The destination-file codec *)

Definition nl : string := str1 "010"%char.

(** One iteration of the loop of [read_env_file]. *)
Definition read_env_line (env_vars : gmap string string) (raw : string)
    : gmap string string :=
  let line := strip raw in
  if is_empty line || startswith "#" line then env_vars
  else if contains "=" line then
    let '(key, _, value) := partition "=" line in
    let key := strip key in
    let value := strip value in
    let value :=
      if (startswith (str1 dquote) value && endswith (str1 dquote) value)
         || (startswith (str1 squote) value && endswith (str1 squote) value)
      then slice_1_m1 value else value in
    <[key := value]> env_vars
  else env_vars.

Definition read_env_text (text : string) : gmap string string :=
  foldl read_env_line ∅ (readlines text).

Definition read_env_file (fs : FS) (env_file : Path) : gmap string string :=
  match fs env_file with
  | None => ∅
  | Some text => read_env_text (universal_newlines text)
  end.

(** [sorted(variables.keys())] *)
Definition sorted_keys (variables : gmap string string) : list string :=
  merge_sort String.le (fst <$> map_to_list variables).

(** The line written for [key]. *)
Definition env_line (variables : gmap string string) (key : string) : string :=
  key +:+ "=" +:+ default EmptyString (variables !! key) +:+ nl.

(** What [if header:] writes: nothing for [None] and for the empty text. *)
Definition header_block (header : option string) : string :=
  match header with
  | Some h => if is_empty h then EmptyString else h +:+ nl +:+ nl
  | None => EmptyString
  end.

(** Everything [write_env_file] writes, in order. *)
Definition render_env (variables : gmap string string) (header : option string) : string :=
  header_block header +:+ String.concat EmptyString (env_line variables <$> sorted_keys variables).

(** [write_env_file]: the file is opened for writing (created or emptied),
    then filled. *)
Definition write_env_file (fs : FS) (env_file : Path)
    (variables : gmap string string) (header : option string) : FS :=
  fs_write fs env_file (render_env variables header).

(** An instance of the float printer for closed statements whose inputs hold
    no float; its value is never consulted there. *)
Definition float_str_unused (f : float_lit) : string := "nan".

Section Sync.

(** [str(x)] of a float: rounding the numeral to a binary64 and printing its
    shortest round-tripping decimal is left as a parameter. *)
Variable float_str : float_lit -> string.

Definition hex_digit (n : N) : ascii :=
  if (n <? 10)%N then ascii_of_N (48 + n) else ascii_of_N (87 + n).

(** One character of [repr(s)] inside the quotes [q]. *)
Definition repr_char (q : ascii) (c : ascii) : string :=
  if Ascii.eqb c q || Ascii.eqb c backslash then String backslash (str1 c)
  else if Ascii.eqb c "009" then String backslash "t"
  else if Ascii.eqb c "010" then String backslash "n"
  else if Ascii.eqb c "013" then String backslash "r"
  else if (code c <? 32)%N || (126 <? code c)%N then
    String backslash (String "x" (String (hex_digit (code c / 16)) (str1 (hex_digit (code c mod 16)))))
  else str1 c.

Fixpoint repr_chars (q : ascii) (s : string) : string :=
  match s with
  | EmptyString => EmptyString
  | String c s' => repr_char q c +:+ repr_chars q s'
  end.

(** [repr(s)] of a str: single quotes, unless the text has a single quote
    and no double quote. *)
Definition repr_str (s : string) : string :=
  let q := if contains (str1 squote) s && negb (contains (str1 dquote) s)
           then dquote else squote in
  String q (repr_chars q s) +:+ str1 q.

(** [repr(v)] *)
Fixpoint py_repr (v : Value) : string :=
  match v with
  | VNone => "None"
  | VBool b => if b then "True" else "False"
  | VInt z => str_int z
  | VFloat f => float_str f
  | VStr s => repr_str s
  | VList items => "[" +:+ join ", " (List.map py_repr items) +:+ "]"
  end.

(** [str(v)] *)
Definition py_str (v : Value) : string :=
  match v with
  | VStr s => s
  | _ => py_repr v
  end.

(** The characters that make [format_env_value] quote a str. *)
Definition special_chars : list ascii := ["$"%char; dquote; squote; "`"%char; backslash].

(** [format_env_value]. The branch for a dict is not embedded: no [Value] is
    a dict. *)
Definition format_env_value (value : Value) : string :=
  match value with
  | VNone => EmptyString
  | VBool b => if b then "true" else "false"
  | VInt _ | VFloat _ => py_str value
  | VList items => join "," (List.map py_str items)
  | VStr _ =>
      let str_value := py_str value in
      if contains " " str_value
         || existsb (fun c => contains (str1 c) str_value) special_chars
      then
        let escaped :=
          replace dquote (String backslash (str1 dquote))
                  (replace backslash (String backslash (str1 backslash)) str_value) in
        str1 dquote +:+ escaped +:+ str1 dquote
      else str_value
  end.

(** ** The merge engine and [sync_tfvars_to_env] *)

(** The variables of the merge loop. *)
Record MergeState : Type := mkMerge {
  env_vars : gmap string string;
  updated_count : nat;
  new_count : nat
}.

(** One iteration of [for key, value in tfvars.items()]. *)
Definition merge_step (prefix : string) (st : MergeState) (kv : string * Value)
    : MergeState :=
  let env_key := prefix +:+ upper (fst kv) in
  let env_value := format_env_value (snd kv) in
  let '(updated, new) :=
    match env_vars st !! env_key with
    | Some old =>
        if negb (String.eqb old env_value) then (S (updated_count st), new_count st)
        else (updated_count st, new_count st)
    | None => (updated_count st, S (new_count st))
    end in
  mkMerge (<[env_key := env_value]> (env_vars st)) updated new.

Definition merge_tfvars (prefix : string) (tfvars : tfvars_dict)
    (existing : gmap string string) : MergeState :=
  foldl (merge_step prefix) (mkMerge existing 0 0) tfvars.

(** The three numbers of the closing summary. *)
Record SyncSummary : Type := mkSummary {
  summary_new : nat;
  summary_updated : nat;
  summary_total : nat
}.

Definition sync_header (tfvars_file : Path) : string :=
  "# Environment variables synced from " +:+ path_name tfvars_file +:+ nl
  +:+ "# Generated by sync-tfvars-to-env.py" +:+ nl
  +:+ "# DO NOT EDIT THIS FILE MANUALLY - Changes will be overwritten" +:+ nl
  +:+ "#" +:+ nl
  +:+ "# To update: make sync-env or run scripts/sync-tfvars-to-env.py".

(** The dict the merge starts from. *)
Definition initial_env (fs : FS) (env_file : Path) (overwrite : bool) : gmap string string :=
  if overwrite then ∅ else read_env_file fs env_file.

(** [sync_tfvars_to_env]: how the call ends, and the files after it. *)
Definition sync_tfvars_to_env (fs : FS) (tfvars_file env_file : Path)
    (prefix : string) (overwrite : bool) : Outcome SyncSummary * FS :=
  match parse_tfvars fs tfvars_file with
  | SystemExit status => (SystemExit status, fs)
  | Returned tfvars =>
      let st := merge_tfvars prefix tfvars (initial_env fs env_file overwrite) in
      let fs' := write_env_file fs env_file (env_vars st) (Some (sync_header tfvars_file)) in
      (Returned (mkSummary (new_count st) (updated_count st) (size (env_vars st))), fs')
  end.

(** ** Runs that an exception ends *)






End Sync.

(** ** Names for the steps of [parse_value] and [format_env_value] *)

(** The text [parse_value] works on: stripped, one trailing comma removed. *)
Definition normalise (value : string) : string :=
  let value := strip value in
  if endswith "," value then strip (drop_last value) else value.

(** The tests of [parse_value], in its order. *)
Definition is_keyword (v : string) : bool :=
  String.eqb (lower v) "true" || String.eqb (lower v) "false" || String.eqb (lower v) "null".

Definition is_quoted (v : string) : bool :=
  startswith (str1 dquote) v && endswith (str1 dquote) v.

(** The [try] block: one conversion, chosen by the point. *)
Definition numeric_rule (v : string) : option Value :=
  if contains "." v then VFloat <$> py_float v else VInt <$> py_int v.

Definition is_list_literal (v : string) : bool := startswith "[" v && endswith "]" v.
Definition is_map_literal (v : string) : bool := startswith "{" v && endswith "}" v.

Definition is_number (v : Value) : bool :=
  match v with VInt _ | VFloat _ => true | _ => false end.

(** What [parse_value] returns for the normalised text [v] once the [try]
    block has passed: the list rule, then the map rule and the default, which
    both return the text. *)
Definition rest_rules (v : string) : Value :=
  if is_list_literal v then
    let inner := strip (slice_1_m1 v) in
    if is_empty inner then VList []
    else VList (parse_value <$> List.filter nonempty (List.map strip (split "," inner)))
  else if is_map_literal v then VStr v
  else VStr v.

(** The test and the quoting of the str branch of [format_env_value]. *)
Definition needs_quotes (s : string) : bool :=
  contains " " s || existsb (fun c => contains (str1 c) s) special_chars.

Definition quoted (s : string) : string :=
  str1 dquote
  +:+ replace dquote (String backslash (str1 dquote))
              (replace backslash (String backslash (str1 backslash)) s)
  +:+ str1 dquote.

(** The key the merge loop assigns for a source key. *)
Definition env_key_of (prefix key : string) : string := prefix +:+ upper key.

(** ** The specification's wording, where it is compared with the code *)

(** The numeric step as the specification words it: an integer parse,
    then on failure a float parse, a text with a point going to the float
    parse first. *)
Definition numeric_rule_spec (v : string) : option Value :=
  if contains "." v then
    match py_float v with
    | Some f => Some (VFloat f)
    | None => VInt <$> py_int v
    end
  else
    match py_int v with
    | Some z => Some (VInt z)
    | None => VFloat <$> py_float v
    end.

(** A map serialized as JSON is an object: its text opens with a brace and
    closes with one. *)
Definition is_json_object_text (s : string) : bool :=
  startswith "{" s && endswith "}" s.

(** ** Inputs of the worked examples *)

Definition example_tfvars_path : Path := mkPath EmptyString ["bootstrap"; "terraform.tfvars"].
Definition example_env_path : Path := mkPath EmptyString [".env"].

(** The two example paths lead to two files. *)
Definition example_resolve (p : Path) : FileId :=
  if decide (p = example_tfvars_path) then 1%N
  else if decide (p = example_env_path) then 2%N else 0%N.

Definition no_files : FS := mkFS example_resolve (fun _ => None).

(** One assignment whose value has a space:   name = (quoted) hello world *)
Definition quoted_value_source : string :=
  "name = " +:+ str1 dquote +:+ "hello world" +:+ str1 dquote +:+ nl.

(** A list over four lines, then an assignment on the next line. *)
Definition list_then_assignment_source : string :=
  "tags = [" +:+ nl
  +:+ "  " +:+ str1 dquote +:+ "a" +:+ str1 dquote +:+ "," +:+ nl
  +:+ "  " +:+ str1 dquote +:+ "b" +:+ str1 dquote +:+ nl
  +:+ "]" +:+ nl
  +:+ "region = " +:+ str1 dquote +:+ "us-east-1" +:+ str1 dquote +:+ nl.

(** A destination file with two entries, and a source that assigns one of
    them. *)
Definition two_entries_env : string := "KEEP=1" +:+ nl +:+ "REGION=us-west-2" +:+ nl.

Definition region_source : string :=
  "region = " +:+ str1 dquote +:+ "us-east-1" +:+ str1 dquote +:+ nl.

Definition region_files : FS :=
  fs_write (fs_write no_files example_env_path two_entries_env)
           example_tfvars_path region_source.

(** A destination file whose one value is quoted and opens with a space,
    and a source that assigns another key. *)
Definition padded_value_env : string :=
  "K=" +:+ str1 dquote +:+ " x" +:+ str1 dquote +:+ nl.

Definition padded_value_files : FS :=
  fs_write (fs_write no_files example_env_path padded_value_env)
           example_tfvars_path ("a = 1" +:+ nl).



(** A list over three lines, as the last record of the source. *)
Definition list_source : string :=
  "tags = [" +:+ nl
  +:+ "  " +:+ str1 dquote +:+ "a" +:+ str1 dquote +:+ "," +:+ nl
  +:+ "  " +:+ str1 dquote +:+ "b" +:+ str1 dquote +:+ nl
  +:+ "]".

(** ** Further names for steps of the code *)

(** The escaping of the str branch of [format_env_value]: backslashes
    first, then double quotes. *)
Definition escaped (s : string) : string :=
  replace dquote (String backslash (str1 dquote))
          (replace backslash (String backslash (str1 backslash)) s).

(** The quote removal of [read_env_file]: one pair of double or of single
    quotes around the value. *)
Definition unquote (value : string) : string :=
  if (startswith (str1 dquote) value && endswith (str1 dquote) value)
     || (startswith (str1 squote) value && endswith (str1 squote) value)
  then slice_1_m1 value else value.

(** What [parse_tfvars] takes from one physical line, before it looks at
    the end of the value: nothing for a blank line, a comment or a line
    without an equals sign, otherwise the key and the value with its
    trailing comment removed. *)
Definition line_assignment (raw : string) : option (string * string) :=
  let line := strip raw in
  if is_empty line || startswith "#" line || startswith "//" line then None
  else if contains "=" line then
    let '(key, _, value) := partition "=" line in
    let key := strip key in
    let value := strip value in
    let value :=
      if contains "#" value then strip (hd EmptyString (split "#" value))
      else value in
    Some (key, value)
  else None.

(** The test that starts the collection of a value over several lines. *)
Definition opens_multiline (value : string) : bool :=
  endswith "{" value || endswith "[" value.

(** The record one line gives when its value does not continue. *)
Definition assign_line (variables : tfvars_dict) (raw : string) : tfvars_dict :=
  match line_assignment raw with
  | Some (key, value) => dict_set variables key (parse_value value)
  | None => variables
  end.

(** What every key of the scanner and of [read_env_file] looks like: it is
    stripped and holds no equals sign. *)
Definition key_ok (key : string) : Prop :=
  strip key = key /\ contains "=" key = false.

(** The newline and the carriage return, and the tests that a text holds
    none: text mode reads both as the end of a line. *)
Definition nlc : ascii := "010"%char.
Definition crc : ascii := "013"%char.
Definition no_lf (s : string) : bool := negb (contains (str1 nlc) s).
Definition no_cr (s : string) : bool := negb (contains (str1 crc) s).
Definition no_newline (s : string) : bool := no_lf s && no_cr s.

(** A line that [read_env_file] passes over: blank or a comment. *)
Definition skipped_line (raw : string) : bool :=
  is_empty (strip raw) || startswith "#" (strip raw).

(** An entry that [write_env_file] writes on one line that
    [read_env_file] reads as an entry with the same key: the key is
    stripped, holds no equals sign and does not open a comment, and neither
    the key nor the value holds a newline or a carriage return. *)
Definition entry_ok (key value : string) : bool :=
  String.eqb (strip key) key && negb (contains "=" key)
  && negb (startswith "#" key) && no_newline key && no_newline value.

(** What [read_env_file] makes of a value text: stripped, then rid of one
    pair of quotes. *)
Definition read_value (value : string) : string := unquote (strip value).

(** A line as a file holds it. *)
Definition with_newline (s : string) : string := s +:+ nl.

(** The lines of the header block, without their newlines: the pieces of
    the header between newlines, then the empty line. *)
Definition header_lines (header : option string) : list string :=
  match header with
  | Some h => if is_empty h then [] else (split nlc h ++ [EmptyString])%list
  | None => []
  end.

(** The line written for a key, without its newline. *)
Definition body_line (variables : gmap string string) (key : string) : string :=
  key +:+ "=" +:+ default EmptyString (variables !! key).

(** A list item that the list rule of [parse_value] takes as it stands:
    stripped, not empty and without a comma. *)
Definition list_item_ok (item : string) : Prop :=
  strip item = item /\ is_empty item = false /\ contains "," item = false.

(** * Properties *)

(** ** Files *)

Section Files.

Lemma fs_write_same (fs : FS) (p : Path) (text : string) :
  fs_write fs p text p = Some text.
Proof. unfold fs_read, fs_write. cbn [resolve content]. by rewrite decide_True. Qed.


End Files.

(** ** Lengths of the pieces the str methods return *)

Section StrFacts.

Implicit Types (s p : string) (c : ascii).

Lemma length_lstrip s : String.length (lstrip s) <= String.length s.
Proof.
  induction s as [|c s IH]; simpl; [lia|].
  destruct (is_space c); simpl; lia.
Qed.

Lemma length_rstrip s : String.length (rstrip s) <= String.length s.
Proof.
  induction s as [|c s IH]; simpl; [lia|].
  destruct (is_empty (rstrip s) && is_space c); simpl; lia.
Qed.

Lemma length_strip s : String.length (strip s) <= String.length s.
Proof.
  unfold strip. etrans; [apply length_rstrip | apply length_lstrip].
Qed.

Lemma length_drop_last s : String.length (drop_last s) <= String.length s.
Proof.
  induction s as [|c s IH]; simpl; [lia|].
  destruct (is_empty s); simpl; lia.
Qed.

Lemma length_slice s :
  is_empty s = false -> String.length (slice_1_m1 s) < String.length s.
Proof.
  destruct s as [|c s]; [discriminate|]; intros _.
  unfold slice_1_m1; simpl. pose proof (length_drop_last s). lia.
Qed.

Lemma split_nonnil c s : split c s <> [].
Proof.
  induction s as [|a s IH]; simpl; [done|].
  destruct (Ascii.eqb a c); [done|]. by destruct (split c s).
Qed.

Lemma length_split c s p : In p (split c s) -> String.length p <= String.length s.
Proof.
  revert p. induction s as [|a s IH]; simpl; intros p.
  - intros [<-|[]]. simpl; lia.
  - destruct (Ascii.eqb a c).
    + intros [<-|Hp]; [simpl; lia|]. specialize (IH _ Hp). lia.
    + destruct (split c s) as [|h t] eqn:E.
      * intros [<-|[]]. simpl. lia.
      * intros [<-|Hp]; simpl.
        -- pose proof (IH h (or_introl eq_refl)). lia.
        -- pose proof (IH p (or_intror Hp)). lia.
Qed.

Lemma startswith_nonempty p s :
  is_empty p = false -> startswith p s = true -> is_empty s = false.
Proof. destruct p, s; simpl; congruence. Qed.

Lemma length_normalise s : String.length (normalise s) <= String.length s.
Proof.
  unfold normalise. pose proof (length_strip s).
  destruct (endswith "," (strip s)); [|done].
  pose proof (length_strip (drop_last (strip s))).
  pose proof (length_drop_last (strip s)). lia.
Qed.

End StrFacts.

(** ** [parse_value] and the depth of its recursion *)

Section ParseValue.

Lemma mapM_ext_Forall {A B} (f g : A -> option B) (l : list A) :
  Forall (fun x => f x = g x) l -> mapM f l = mapM g l.
Proof.
  induction 1 as [|x l Hx _ IH]; simpl; [done|]. by rewrite Hx, IH.
Qed.

Lemma mapM_Some_fmap {A B} (f : A -> B) (l : list A) :
  mapM (fun y => Some (f y)) l = Some (f <$> l).
Proof. induction l as [|y l IH]; [done|]. cbn. by rewrite IH. Qed.


(** The body of [parse_value], read through the names of its steps. *)
Lemma parse_value_body_steps (rec : string -> option Value) (value : string) :
  parse_value_body rec value =
    let v := normalise value in
    if String.eqb (lower v) "true" then Some (VBool true) else
    if String.eqb (lower v) "false" then Some (VBool false) else
    if String.eqb (lower v) "null" then Some VNone else
    if is_quoted v then Some (VStr (slice_1_m1 v)) else
    match numeric_rule v with
    | Some number => Some number
    | None =>
        if is_list_literal v then
          if is_empty (strip (slice_1_m1 v)) then Some (VList [])
          else VList <$> mapM rec
                 (List.filter nonempty (List.map strip (split "," (strip (slice_1_m1 v)))))
        else Some (VStr v)
    end.
Proof.
  unfold parse_value_body, normalise, is_quoted, numeric_rule, is_list_literal.
  cbv zeta.
  repeat (match goal with |- context [if ?b then _ else _] => destruct b end; try reflexivity).
Qed.

(** Every list item is strictly shorter than the text it comes from. *)
Lemma list_item_shorter (value item : string) :
  is_list_literal (normalise value) = true ->
  In item (List.filter nonempty
             (List.map strip (split "," (strip (slice_1_m1 (normalise value)))))) ->
  String.length item < String.length value.
Proof.
  intros Hl Hin. apply filter_In in Hin as [Hin _].
  apply in_map_iff in Hin as (piece & <- & Hpiece).
  apply length_split in Hpiece.
  unfold is_list_literal in Hl. apply andb_true_iff in Hl as [Hs _].
  apply startswith_nonempty in Hs; [|done].
  pose proof (length_slice _ Hs). pose proof (length_normalise value).
  pose proof (length_strip piece).
  pose proof (length_strip (slice_1_m1 (normalise value))). lia.
Qed.

Lemma parse_value_body_ext (rec1 rec2 : string -> option Value) (value : string) :
  (forall item, String.length item < String.length value -> rec1 item = rec2 item) ->
  parse_value_body rec1 value = parse_value_body rec2 value.
Proof.
  intros Hrec. rewrite !parse_value_body_steps. cbv zeta.
  repeat (match goal with |- context [if String.eqb ?a ?b then _ else _] =>
            destruct (String.eqb a b) end; try reflexivity).
  destruct (is_quoted _); [done|]. destruct (numeric_rule _); [done|].
  destruct (is_list_literal _) eqn:Hl; [|done].
  destruct (is_empty _); [done|]. f_equal.
  apply mapM_ext_Forall, Forall_forall. intros item Hin. apply Hrec.
  apply list_elem_of_In in Hin. by apply list_item_shorter.
Qed.

Lemma parse_value_body_total (rec : string -> option Value) (value : string) :
  (forall item, String.length item < String.length value -> is_Some (rec item)) ->
  is_Some (parse_value_body rec value).
Proof.
  intros Hrec. rewrite parse_value_body_steps. cbv zeta.
  repeat (match goal with |- context [if String.eqb ?a ?b then _ else _] =>
            destruct (String.eqb a b) end; try done).
  destruct (is_quoted _); [done|]. destruct (numeric_rule _); [done|].
  destruct (is_list_literal _) eqn:Hl; [|done].
  destruct (is_empty _); [done|].
  apply fmap_is_Some, mapM_is_Some_2, Forall_forall. intros item Hin.
  apply Hrec. apply list_elem_of_In in Hin. by apply list_item_shorter.
Qed.

Lemma parse_value_fuel_total (fuel : nat) (value : string) :
  String.length value < fuel -> is_Some (parse_value_fuel fuel value).
Proof.
  revert value. induction fuel as [|fuel IH]; intros value Hlen; [lia|].
  simpl. apply parse_value_body_total. intros item Hitem. apply IH. lia.
Qed.

Lemma parse_value_fuel_enough (fuel1 fuel2 : nat) (value : string) :
  String.length value < fuel1 -> String.length value < fuel2 ->
  parse_value_fuel fuel1 value = parse_value_fuel fuel2 value.
Proof.
  revert fuel2 value. induction fuel1 as [|fuel1 IH]; intros [|fuel2] value H1 H2; try lia.
  simpl. apply parse_value_body_ext. intros item Hitem. apply IH; lia.
Qed.

(** [parse_value] is the result at any sufficient fuel. *)
Lemma parse_value_spec (fuel : nat) (value : string) :
  String.length value < fuel -> parse_value_fuel fuel value = Some (parse_value value).
Proof.
  intros Hlen. unfold parse_value.
  rewrite (parse_value_fuel_enough fuel (S (String.length value))) by lia.
  by destruct (parse_value_fuel_total (S (String.length value)) value) as [v ->]; [lia|].
Qed.

(** [parse_value] satisfies the equation of the source function. *)
Lemma parse_value_unfold (value : string) :
  parse_value_body (fun item => Some (parse_value item)) value = Some (parse_value value).
Proof.
  rewrite <- (parse_value_spec (S (String.length value))) by lia. simpl.
  apply parse_value_body_ext. intros item Hitem. symmetry. by apply parse_value_spec.
Qed.




End ParseValue.



(** ** The numeric step *)

(** C7, as amended: past the boolean, null and quoted-string rules
    [parse_value] makes one conversion only, [float] when the text has a
    point and [int] when it has none; its success is the result, and on its
    failure the result is what the list rule, the map rule and the default
    make of the text, which is no number, whatever the other conversion
    would give. *)
Theorem numeric_rule_single_attempt (value : string) :
  let v := normalise value in
  is_keyword v = false -> is_quoted v = false ->
  (forall f, contains "." v = true -> py_float v = Some f -> parse_value value = VFloat f)
  /\ (forall z, contains "." v = false -> py_int v = Some z -> parse_value value = VInt z)
  /\ (contains "." v = true -> py_float v = None ->
      parse_value value = rest_rules v /\ is_number (parse_value value) = false)
  /\ (contains "." v = false -> py_int v = None ->
      parse_value value = rest_rules v /\ is_number (parse_value value) = false).
Proof.
  intros v Hk Hq. pose proof (parse_value_unfold value) as H.
  rewrite parse_value_body_steps in H. cbv zeta in H. fold v in H.
  unfold is_keyword in Hk. apply orb_false_iff in Hk as [Hk Hk3].
  apply orb_false_iff in Hk as [Hk1 Hk2].
  rewrite Hk1, Hk2, Hk3, Hq, mapM_Some_fmap in H.
  assert (Hrest :
    (if is_list_literal v
     then if is_empty (strip (slice_1_m1 v)) then Some (VList [])
          else VList <$> Some (parse_value <$>
                 List.filter nonempty (List.map strip (split "," (strip (slice_1_m1 v)))))
     else Some (VStr v)) = Some (rest_rules v)).
  { unfold rest_rules. cbv zeta.
    destruct (is_list_literal v); [by destruct (is_empty _)|].
    by destruct (is_map_literal v). }
  assert (Hno : is_number (rest_rules v) = false).
  { unfold rest_rules. cbv zeta.
    destruct (is_list_literal v); [by destruct (is_empty _)|].
    by destruct (is_map_literal v). }
  rewrite Hrest in H. unfold numeric_rule in H.
  split; [|split; [|split]].
  - intros f Hdot Hf. rewrite Hdot, Hf in H.
    cbn [fmap option_fmap option_map] in H. congruence.
  - intros z Hdot Hz. rewrite Hdot, Hz in H.
    cbn [fmap option_fmap option_map] in H. congruence.
  - intros Hdot Hf. rewrite Hdot, Hf in H.
    cbn [fmap option_fmap option_map] in H. injection H as <-. by split.
  - intros Hdot Hz. rewrite Hdot, Hz in H.
    cbn [fmap option_fmap option_map] in H. injection H as <-. by split.
Qed.

Lemma numeric_rule_single_attempt_witness :
  parse_value "1.5" = VFloat (FDec false 15 (-1))
  /\ parse_value "42" = VInt 42
  /\ parse_value "1e5" = VStr "1e5"
  /\ parse_value "1.2.3" = VStr "1.2.3"
  /\ parse_value "[0x10, 2]" = VList [parse_value "0x10"; parse_value "2"].
Proof.
  destruct (numeric_rule_single_attempt "1.5" eq_refl eq_refl) as (Hf & _).
  destruct (numeric_rule_single_attempt "42" eq_refl eq_refl) as (_ & Hz & _).
  destruct (numeric_rule_single_attempt "1e5" eq_refl eq_refl) as (_ & _ & _ & Hn).
  destruct (numeric_rule_single_attempt "1.2.3" eq_refl eq_refl) as (_ & _ & Hp & _).
  destruct (numeric_rule_single_attempt "[0x10, 2]" eq_refl eq_refl) as (_ & _ & _ & Hl).
  split; [by apply Hf|]. split; [by apply Hz|].
  split; [exact (proj1 (Hn eq_refl eq_refl))|].
  split; [exact (proj1 (Hp eq_refl eq_refl))|].
  exact (proj1 (Hl eq_refl eq_refl)).
Defined.

(** C7, as stated, fails at the text 1e5: it has no point and [int] refuses
    it, [float] would read it as 1 * 10^5, and the step worded as integer
    parse then float parse would return that float; [parse_value] makes no
    float attempt and returns the str. *)
Lemma numeric_rule_spec_differs :
  is_keyword "1e5" = false /\ is_quoted "1e5" = false
  /\ py_int "1e5" = None
  /\ py_float "1e5" = Some (FDec false 1 5)
  /\ numeric_rule_spec "1e5" = Some (VFloat (FDec false 1 5))
  /\ parse_value "1e5" = VStr "1e5".
Proof. by vm_compute. Qed.

(** ** Strings that end in a given character *)

Section Endings.

Implicit Types (s : string) (a c : ascii).

Lemma endswith_char_cons c a s :
  endswith (str1 c) (String a s) =
    if is_empty s then Ascii.eqb c a else endswith (str1 c) s.
Proof.
  simpl. destruct s as [|b s]; simpl; by destruct (Ascii.eqb c a).
Qed.

Lemma endswith_char_nil c : endswith (str1 c) EmptyString = false.
Proof. reflexivity. Qed.

Lemma endswith_char_unique c1 c2 s :
  endswith (str1 c1) s = true -> endswith (str1 c2) s = true -> c1 = c2.
Proof.
  induction s as [|a s IH]; [by rewrite endswith_char_nil|].
  rewrite !endswith_char_cons. destruct (is_empty s); [|done].
  intros ->%Ascii.eqb_eq ->%Ascii.eqb_eq. done.
Qed.

Lemma rstrip_endswith c s :
  is_space c = false -> endswith (str1 c) s = true -> rstrip s = s.
Proof.
  intros Hc. induction s as [|a s IH]; [done|].
  rewrite endswith_char_cons. simpl. destruct s as [|b s].
  - simpl. intros ->%Ascii.eqb_eq. by rewrite Hc.
  - intros H. rewrite (IH H). done.
Qed.

Lemma lstrip_nonspace a s : is_space a = false -> lstrip (String a s) = String a s.
Proof. simpl. by intros ->. Qed.

Lemma startswith_char_inv c s :
  startswith (str1 c) s = true -> exists s', s = String c s'.
Proof.
  destruct s as [|a s]; simpl; [done|].
  rewrite andb_true_r. intros ->%Ascii.eqb_eq. by eexists.
Qed.

(** A text in braces is already normalised. *)
Lemma normalise_map_literal s : is_map_literal s = true -> normalise s = s.
Proof.
  unfold is_map_literal. intros [Hs He]%andb_true_iff.
  apply startswith_char_inv in Hs as [s' ->].
  assert (Hstrip : strip (String "{" s') = String "{" s').
  { unfold strip. rewrite lstrip_nonspace by reflexivity.
    by apply (rstrip_endswith "}"). }
  unfold normalise. rewrite Hstrip.
  destruct (endswith "," (String "{" s')) eqn:Hc; [|done].
  by pose proof (endswith_char_unique _ _ _ Hc He).
Qed.

End Endings.

(** ** Formatting *)

Section Formatting.

Variable float_str : float_lit -> string.

(** No conversion reads a text that opens with a brace. *)
Lemma numeric_rule_brace (s : string) :
  strip (String "{" s) = String "{" s -> numeric_rule (String "{" s) = None.
Proof.
  intros Hstrip. unfold numeric_rule, py_float, py_int. rewrite Hstrip.
  destruct (contains "." (String "{" s)).
  - destruct (underscores_ok "000" (String "{" s)); reflexivity.
  - simpl. by rewrite andb_false_r.
Qed.

(** C3, as amended: a literal wrapped in braces is parsed to the str holding
    the literal unchanged, and is formatted by the rule for a str: the text
    as it is when it has no space and none of the special characters,
    otherwise the text in double quotes with backslashes and double quotes
    escaped. *)
Theorem raw_map_formatted_as_str (value : string) :
  is_map_literal value = true ->
  parse_value value = VStr value
  /\ format_env_value float_str (parse_value value) =
       (if needs_quotes value then quoted value else value).
Proof.
  intros Hm. assert (Hp : parse_value value = VStr value).
  { pose proof (parse_value_unfold value) as H.
    rewrite parse_value_body_steps, (normalise_map_literal _ Hm) in H. cbv zeta in H.
    pose proof (normalise_map_literal _ Hm) as Hn.
    unfold is_map_literal in Hm. apply andb_true_iff in Hm as [Hs He].
    apply startswith_char_inv in Hs as [s' ->].
    assert (Hstrip : strip (String "{" s') = String "{" s').
    { unfold strip. rewrite lstrip_nonspace by reflexivity.
      by apply (rstrip_endswith "}"). }
    rewrite (numeric_rule_brace _ Hstrip) in H.
    change (Some (VStr (String "{" s')) = Some (parse_value (String "{" s'))) in H.
    congruence. }
  split; [done|]. rewrite Hp. reflexivity.
Qed.

(** C2: a list is joined from [str] of its elements, so the list read from
    [true, null] is written with Python's True and None. *)
Theorem list_elements_formatted_by_str :
  parse_value "[true, null]" = VList [VBool true; VNone]
  /\ format_env_value float_str (VBool true) = "true"
  /\ format_env_value float_str VNone = EmptyString
  /\ format_env_value float_str (parse_value "[true, null]") = "True,None".
Proof. by vm_compute. Qed.

End Formatting.

Lemma raw_map_formatted_as_str_witness :
  format_env_value float_str_unused (parse_value "{a = 1}")
    = str1 dquote +:+ "{a = 1}" +:+ str1 dquote
  /\ format_env_value float_str_unused (parse_value "{}") = "{}".
Proof.
  split.
  - apply (proj2 (raw_map_formatted_as_str float_str_unused "{a = 1}" eq_refl)).
  - apply (proj2 (raw_map_formatted_as_str float_str_unused "{}" eq_refl)).
Defined.

(** C3, as stated, fails at the literal {a = 1}: what is written is the
    literal inside double quotes, which is no JSON object and is not
    compact. *)
Lemma raw_map_not_json :
  is_map_literal "{a = 1}" = true
  /\ format_env_value float_str_unused (parse_value "{a = 1}")
       = str1 dquote +:+ "{a = 1}" +:+ str1 dquote
  /\ is_json_object_text (format_env_value float_str_unused (parse_value "{a = 1}")) = false
  /\ contains " " (format_env_value float_str_unused (parse_value "{a = 1}")) = true.
Proof. by vm_compute. Qed.

(** ** The scanner's loops *)

Section Scanner.

(** The inner loop only moves the cursor forward, and not past the end. *)
Lemma collect_multiline_cursor (rest : list string) (i : nat)
    (multi_value : list string) (bracket_count : Z) :
  i <= (collect_multiline rest i multi_value bracket_count).2 <= i + List.length rest.
Proof.
  revert i multi_value bracket_count.
  induction rest as [|raw rest IH]; intros i mv bc;
    cbn [collect_multiline List.length snd]; [lia|].
  destruct (0 <? bc)%Z; cbn [snd]; [|lia].
  destruct (nonempty (strip raw) && negb (startswith "#" (strip raw)));
    match goal with |- context [collect_multiline rest ?j ?m ?b] =>
      specialize (IH j m b) end; lia.
Qed.

(** Every iteration of the outer loop advances the cursor, so any fuel that
    covers the lines left gives the same dict. *)
Lemma parse_lines_fuel_enough (n fuel : nat) (lines : list string) (i : nat)
    (variables : tfvars_dict) :
  List.length lines - i <= n -> n <= fuel ->
  parse_lines fuel lines i variables = parse_lines n lines i variables.
Proof.
  revert fuel i variables.
  induction n as [|n IH]; intros fuel i variables Hn Hfuel.
  - assert (Hnone : lines !! i = None) by (apply lookup_ge_None_2; lia).
    destruct fuel; cbn [parse_lines]; [done|]. by rewrite Hnone.
  - destruct fuel as [|fuel]; [lia|]. cbn [parse_lines].
    destruct (lines !! i) as [raw|] eqn:Hraw; [|done].
    apply lookup_lt_Some in Hraw.
    destruct (is_empty (strip raw) || startswith "#" (strip raw)
              || startswith "//" (strip raw)); [apply IH; lia|].
    destruct (contains "=" (strip raw)); [|apply IH; lia].
    destruct (partition "=" (strip raw)) as [[key sep] value].
    match goal with |- context [if ?b then _ else _] => destruct b end;
      [|apply IH; lia].
    match goal with |- context [collect_multiline ?r ?j ?m ?b] =>
      pose proof (collect_multiline_cursor r j m b) as Hc;
      destruct (collect_multiline r j m b) as [mv i'] end.
    simpl in Hc. apply IH; lia.
Qed.

(** [parse_tfvars_text] is the scan at any fuel that covers the lines. *)
Lemma parse_tfvars_text_fuel (fuel : nat) (text : string) :
  List.length (readlines text) <= fuel ->
  parse_lines fuel (readlines text) 0 [] = parse_tfvars_text text.
Proof.
  intros Hfuel. unfold parse_tfvars_text. apply parse_lines_fuel_enough; lia.
Qed.

(** A list over several lines that ends the source is read whole. *)
Example multiline_list_is_joined :
  parse_tfvars_text list_source = [("tags", VList [VStr "a"; VStr "b"])].
Proof. by vm_compute. Qed.

(** C8: the source text holds a list over four lines and, on the line after
    the closing bracket, the assignment of region. The scanner returns the
    list alone: the cursor stands on the line of region when the inner loop
    ends, and the increment that closes the iteration steps over it. *)
Theorem line_after_multiline_value_is_skipped :
  readlines list_then_assignment_source !! 4
    = Some ("region = " +:+ str1 dquote +:+ "us-east-1" +:+ str1 dquote +:+ nl)
  /\ parse_tfvars_text list_then_assignment_source
       = [("tags", VList [VStr "a"; VStr "b"])]
  /\ dict_get (parse_tfvars_text list_then_assignment_source) "region" = None.
Proof. by vm_compute. Qed.

End Scanner.

(** ** The merge loop *)

Section Merge.

Variable float_str : float_lit -> string.

Lemma merge_step_env (prefix : string) (st : MergeState) (kv : string * Value) :
  env_vars (merge_step float_str prefix st kv)
    = <[env_key_of prefix kv.1 := format_env_value float_str kv.2]> (env_vars st).
Proof.
  unfold merge_step. destruct (env_vars st !! _) as [old|]; [|done].
  by destruct (negb _).
Qed.

(** One iteration adds a key exactly when it counts it as new. *)
Lemma merge_step_size (prefix : string) (st : MergeState) (kv : string * Value) :
  size (env_vars (merge_step float_str prefix st kv)) + new_count st
    = size (env_vars st) + new_count (merge_step float_str prefix st kv).
Proof.
  unfold merge_step.
  destruct (env_vars st !! (prefix +:+ upper kv.1)) as [old|] eqn:Hold.
  - assert (Hsz : size (<[prefix +:+ upper kv.1 := format_env_value float_str kv.2]>
                          (env_vars st)) = size (env_vars st)).
    { rewrite <- (insert_delete_id (env_vars st) _ _ Hold) at 2.
      rewrite <- insert_delete_eq.
      rewrite !map_size_insert_None by apply lookup_delete_eq. done. }
    destruct (negb _); simpl; lia.
  - simpl. rewrite map_size_insert_None by done. lia.
Qed.

Lemma merge_tfvars_size (prefix : string) (tfvars : tfvars_dict) (st : MergeState) :
  size (env_vars (foldl (merge_step float_str prefix) st tfvars)) + new_count st
    = size (env_vars st) + new_count (foldl (merge_step float_str prefix) st tfvars).
Proof.
  revert st. induction tfvars as [|kv tfvars IH]; intros st; simpl; [lia|].
  pose proof (IH (merge_step float_str prefix st kv)).
  pose proof (merge_step_size prefix st kv). lia.
Qed.

Lemma merge_tfvars_lookup_other (prefix : string) (tfvars : tfvars_dict)
    (st : MergeState) (k : string) :
  k ∉ env_key_of prefix <$> tfvars.*1 ->
  env_vars (foldl (merge_step float_str prefix) st tfvars) !! k = env_vars st !! k.
Proof.
  revert st. induction tfvars as [|kv tfvars IH]; intros st Hk; simpl; [done|].
  rewrite !fmap_cons in Hk. apply not_elem_of_cons in Hk as [Hne Hk].
  rewrite IH by done. rewrite merge_step_env. by rewrite lookup_insert_ne.
Qed.

(** C6: in a run without overwrite, a key of the destination map read at the
    start that is the transformed key of no source variable is in the map
    the merge ends with, and has the value it had. *)
Theorem merge_keeps_absent_keys (fs : FS) (env_file : Path) (prefix : string)
    (tfvars : tfvars_dict) (k v : string) :
  initial_env fs env_file false !! k = Some v ->
  k ∉ env_key_of prefix <$> tfvars.*1 ->
  env_vars (merge_tfvars float_str prefix tfvars (initial_env fs env_file false)) !! k
    = Some v.
Proof.
  intros Hv Hk. unfold merge_tfvars. by rewrite merge_tfvars_lookup_other.
Qed.

(** C10: in every run that returns, the total that is reported is the size
    of the map the merge started from (the destination map read at the
    start, the empty map under overwrite) plus the count of new variables
    that is reported. *)
Theorem sync_total_is_initial_plus_new (fs fs' : FS) (tfvars_file env_file : Path)
    (prefix : string) (overwrite : bool) (summary : SyncSummary) :
  sync_tfvars_to_env float_str fs tfvars_file env_file prefix overwrite
    = (Returned summary, fs') ->
  summary_total summary
    = size (initial_env fs env_file overwrite) + summary_new summary.
Proof.
  unfold sync_tfvars_to_env. destruct (parse_tfvars fs tfvars_file) as [tfvars|];
    [|discriminate].
  intros [= <- _]. simpl. unfold merge_tfvars.
  pose proof (merge_tfvars_size prefix tfvars
                (mkMerge (initial_env fs env_file overwrite) 0 0)) as H.
  simpl in H. lia.
Qed.

End Merge.

Lemma merge_keeps_absent_keys_witness :
  env_vars (merge_tfvars float_str_unused EmptyString (parse_tfvars_text region_source)
              (initial_env region_files example_env_path false)) !! "KEEP"
    = Some "1".
Proof.
  apply (merge_keeps_absent_keys float_str_unused region_files example_env_path
           EmptyString (parse_tfvars_text region_source) "KEEP" "1").
  - by vm_compute.
  - vm_compute. intros H. apply list_elem_of_In in H as [H|[]]. discriminate.
Defined.

Lemma sync_total_is_initial_plus_new_witness :
  summary_total (mkSummary 0 1 2)
    = size (initial_env region_files example_env_path false)
      + summary_new (mkSummary 0 1 2).
Proof.
  apply (sync_total_is_initial_plus_new float_str_unused region_files
           (sync_tfvars_to_env float_str_unused region_files example_tfvars_path
              example_env_path EmptyString false).2
           example_tfvars_path example_env_path EmptyString false).
  by vm_compute.
Defined.

(** ** The written file *)

Section Codec.

Lemma StronglySorted_strict {A} (R : relation A) (l : list A) :
  StronglySorted R l -> NoDup l -> StronglySorted (fun x y => R x y /\ x <> y) l.
Proof.
  induction 1 as [|x l Hl IH Hx]; intros Hnd; [constructor|].
  apply NoDup_cons in Hnd as [Hnotin Hnd]. constructor; [by apply IH|].
  apply Forall_forall. intros y Hy. split.
  - by eapply Forall_forall in Hx.
  - intros ->. done.
Qed.

Lemma string_le_ne_ltb (a b : string) : String.le a b -> a <> b -> String.ltb a b = true.
Proof.
  unfold String.le, String.leb, String.ltb. intros Hle Hne.
  destruct (String.compare a b) eqn:Hc; [|done|done].
  by apply String.compare_eq_iff in Hc.
Qed.

Lemma sorted_keys_perm (variables : gmap string string) :
  sorted_keys variables ≡ₚ (map_to_list variables).*1.
Proof. apply merge_sort_Permutation. Qed.

Lemma sorted_keys_elem (variables : gmap string string) (k : string) :
  k ∈ sorted_keys variables <-> is_Some (variables !! k).
Proof.
  rewrite sorted_keys_perm, list_elem_of_fmap. split.
  - intros ([k' v] & -> & Hin). apply elem_of_map_to_list in Hin. by eexists.
  - intros [v Hv]. exists (k, v). split; [done|]. by apply elem_of_map_to_list.
Qed.

Lemma sorted_keys_ascending (variables : gmap string string) :
  StronglySorted (fun a b => String.ltb a b = true) (sorted_keys variables).
Proof.
  assert (Hs : StronglySorted (fun a b => String.le a b /\ a <> b) (sorted_keys variables)).
  { apply StronglySorted_strict.
    - apply (StronglySorted_merge_sort String.le).
    - rewrite sorted_keys_perm. apply NoDup_fst_map_to_list. }
  induction Hs as [|x l Hl IH Hx]; constructor; [done|].
  eapply Forall_impl; [exact Hx|]. intros y [Hle Hne]. by apply string_le_ne_ltb.
Qed.

(** C9: the file written holds the header block first (the header and an
    empty line after it, when there is a header), then one line per key of
    the map, the keys in strictly ascending lexicographic order; each line
    is the key, the equals sign and the value. What is written depends on
    the map alone, not on the order in which its entries were put in. *)
Theorem write_env_file_sorted (fs : FS) (env_file : Path)
    (variables : gmap string string) (header : option string) :
  write_env_file fs env_file variables header env_file
    = Some (header_block header
            +:+ String.concat EmptyString (env_line variables <$> sorted_keys variables))
  /\ StronglySorted (fun a b => String.ltb a b = true) (sorted_keys variables)
  /\ (forall k, k ∈ sorted_keys variables <-> is_Some (variables !! k))
  /\ (forall k v, variables !! k = Some v ->
        env_line variables k = k +:+ "=" +:+ v +:+ nl)
  /\ (forall h, header = Some h -> is_empty h = false ->
        header_block header = h +:+ nl +:+ nl)
  /\ (forall items1 items2 : list (string * string),
        NoDup items1.*1 -> items1 ≡ₚ items2 ->
        write_env_file fs env_file (list_to_map items1) header env_file
          = write_env_file fs env_file (list_to_map items2) header env_file).
Proof.
  split.
  { apply fs_write_same. }
  split; [apply sorted_keys_ascending|].
  split; [apply sorted_keys_elem|].
  split.
  { intros k v Hv. unfold env_line. by rewrite Hv. }
  split.
  { intros h -> Hh. simpl. by rewrite Hh. }
  intros items1 items2 Hnd Hperm.
  by rewrite (list_to_map_proper items1 items2 Hnd Hperm).
Qed.

Lemma write_env_file_sorted_witness :
  write_env_file no_files example_env_path
      (list_to_map [("B", "2"); ("A", "1")]) None example_env_path
    = write_env_file no_files example_env_path
        (list_to_map [("A", "1"); ("B", "2")]) None example_env_path
  /\ write_env_file no_files example_env_path
        (list_to_map [("B", "2"); ("A", "1")]) None example_env_path
      = Some ("A=1" +:+ nl +:+ "B=2" +:+ nl).
Proof.
  split.
  - apply (write_env_file_sorted no_files example_env_path ∅ None).
    + apply NoDup_cons. split; [|apply NoDup_singleton].
      intros H. apply list_elem_of_In in H as [H|[]]. discriminate.
    + apply Permutation_swap.
  - etrans;
      [apply (proj1 (write_env_file_sorted no_files example_env_path
                       (list_to_map [("B", "2"); ("A", "1")]) None))|].
    by vm_compute.
Defined.

End Codec.

(** ** Whole runs *)

Section Runs.

Variable float_str : float_lit -> string.



(** C1: the source holds one assignment whose value has a space, and there
    is no destination file. The first run reports one new variable. The
    second run, on the same source, leaves the file as the first wrote it
    and reports one updated variable: the value read back has lost its
    quotes and is compared with the quoted one. *)
Theorem second_sync_counts_quoted_value_as_updated :
  let fs0 := fs_write no_files example_tfvars_path quoted_value_source in
  let run1 := sync_tfvars_to_env float_str fs0 example_tfvars_path example_env_path
                EmptyString false in
  let run2 := sync_tfvars_to_env float_str run1.2 example_tfvars_path example_env_path
                EmptyString false in
  run1.1 = Returned (mkSummary 1 0 1)
  /\ run1.2 example_env_path
      = Some (sync_header example_tfvars_path +:+ nl +:+ nl
              +:+ "NAME=" +:+ str1 dquote +:+ "hello world" +:+ str1 dquote +:+ nl)
  /\ run2.1 = Returned (mkSummary 0 1 1)
  /\ run2.2 example_env_path = run1.2 example_env_path.
Proof. by vm_compute. Qed.

(** A value that only the destination holds is written back as it was read,
    without its quotes: a quoted value that opens with a space changes again
    when the file is read a second time. *)
Lemma second_sync_rewrites_kept_value :
  let run1 := sync_tfvars_to_env float_str padded_value_files example_tfvars_path
                example_env_path EmptyString false in
  let run2 := sync_tfvars_to_env float_str run1.2 example_tfvars_path example_env_path
                EmptyString false in
  run1.2 example_env_path
    = Some (sync_header example_tfvars_path +:+ nl +:+ nl
            +:+ "A=1" +:+ nl +:+ "K= x" +:+ nl)
  /\ run2.2 example_env_path
      = Some (sync_header example_tfvars_path +:+ nl +:+ nl
              +:+ "A=1" +:+ nl +:+ "K=x" +:+ nl).
Proof. by vm_compute. Qed.

(** The specification's scenarios A, B, D and E. *)
Example scenario_region :
  (sync_tfvars_to_env float_str (fs_write no_files example_tfvars_path region_source)
     example_tfvars_path example_env_path EmptyString false).2 example_env_path
    = Some (sync_header example_tfvars_path +:+ nl +:+ nl +:+ "REGION=us-east-1" +:+ nl).
Proof. by vm_compute. Qed.

Example scenario_enabled :
  (sync_tfvars_to_env float_str
     (fs_write no_files example_tfvars_path ("enabled = true" +:+ nl))
     example_tfvars_path example_env_path EmptyString false).2 example_env_path
    = Some (sync_header example_tfvars_path +:+ nl +:+ nl +:+ "ENABLED=true" +:+ nl).
Proof. by vm_compute. Qed.

Example scenario_prefix :
  (sync_tfvars_to_env float_str
     (fs_write no_files example_tfvars_path ("name = x" +:+ nl))
     example_tfvars_path example_env_path "APP_" false).2 example_env_path
    = Some (sync_header example_tfvars_path +:+ nl +:+ nl +:+ "APP_NAME=x" +:+ nl).
Proof. by vm_compute. Qed.

Example scenario_update :
  sync_tfvars_to_env float_str region_files example_tfvars_path example_env_path
      EmptyString false
    = (Returned (mkSummary 0 1 2),
       fs_write region_files example_env_path
         (sync_header example_tfvars_path +:+ nl +:+ nl
          +:+ "KEEP=1" +:+ nl +:+ "REGION=us-east-1" +:+ nl)).
Proof. by vm_compute. Qed.

End Runs.



(** * Further properties of the code *)

(** ** More on the str methods *)

Section MoreStrFacts.

Implicit Types (s t u : string) (a c : ascii).

Lemma app_cons a s t : String a s +:+ t = String a (s +:+ t).
Proof. reflexivity. Qed.

Lemma app_nil_r s : s +:+ EmptyString = s.
Proof. induction s as [|a s IH]; [done|]. by rewrite app_cons, IH. Qed.

Lemma app_assoc_str s t u : (s +:+ t) +:+ u = s +:+ (t +:+ u).
Proof. induction s as [|a s IH]; [done|]. by rewrite !app_cons, IH. Qed.

Lemma is_empty_app_cons s a t : is_empty (s +:+ String a t) = false.
Proof. by destruct s. Qed.

Lemma is_empty_app_char s c : is_empty (s +:+ str1 c) = false.
Proof. apply is_empty_app_cons. Qed.

Lemma rstrip_cons_nonspace a s :
  is_space a = false -> rstrip (String a s) = String a (rstrip s).
Proof. cbn [rstrip]. intros ->. by rewrite andb_false_r. Qed.

Lemma lstrip_head s :
  lstrip s = EmptyString \/ exists c t, lstrip s = String c t /\ is_space c = false.
Proof.
  induction s as [|a s IH]; cbn [lstrip]; [by left|].
  destruct (is_space a) eqn:Ha; [done|]. right. by eexists _, _.
Qed.

Lemma lstrip_idem s : lstrip (lstrip s) = lstrip s.
Proof.
  destruct (lstrip_head s) as [->|(c & t & -> & Hc)]; [done|].
  by apply lstrip_nonspace.
Qed.

Lemma rstrip_idem s : rstrip (rstrip s) = rstrip s.
Proof.
  induction s as [|a s IH]; [done|]. cbn [rstrip].
  destruct (is_empty (rstrip s) && is_space a) eqn:E; [done|].
  cbn [rstrip]. by rewrite IH, E.
Qed.

Lemma lstrip_rstrip s : lstrip (rstrip s) = rstrip (lstrip s).
Proof.
  induction s as [|a s IH]; [done|]. cbn [lstrip rstrip].
  destruct (is_space a) eqn:Ha.
  - rewrite andb_true_r. destruct (is_empty (rstrip s)) eqn:E.
    + rewrite <- IH. by destruct (rstrip s).
    + cbn [lstrip]. by rewrite Ha.
  - rewrite andb_false_r. cbn [lstrip rstrip]. by rewrite Ha, andb_false_r.
Qed.

Lemma strip_idem s : strip (strip s) = strip s.
Proof.
  unfold strip. by rewrite lstrip_rstrip, lstrip_idem, rstrip_idem.
Qed.

Lemma strip_rstrip s : strip (rstrip s) = strip s.
Proof. unfold strip. by rewrite lstrip_rstrip, rstrip_idem. Qed.

Lemma strip_lstrip s : strip (lstrip s) = strip s.
Proof. unfold strip. by rewrite lstrip_idem. Qed.

Lemma endswith_app_char c s : endswith (str1 c) (s +:+ str1 c) = true.
Proof.
  induction s as [|a s IH].
  - change (EmptyString +:+ str1 c) with (String c EmptyString).
    rewrite endswith_char_cons. apply Ascii.eqb_refl.
  - by rewrite app_cons, endswith_char_cons, is_empty_app_char.
Qed.

Lemma drop_last_app_char s c : drop_last (s +:+ str1 c) = s.
Proof.
  induction s as [|a s IH]; [done|].
  rewrite app_cons. cbn [drop_last].
  by rewrite is_empty_app_char, IH.
Qed.

Lemma rstrip_app_char c s :
  is_space c = false -> rstrip (s +:+ str1 c) = s +:+ str1 c.
Proof. intros Hc. apply (rstrip_endswith c); [done|apply endswith_app_char]. Qed.

Lemma lstrip_app_nonspace s c t :
  is_space c = false -> lstrip (s +:+ String c t) = lstrip s +:+ String c t.
Proof.
  intros Hc. induction s as [|a s IH].
  - change (lstrip (String c t) = String c t). by apply lstrip_nonspace.
  - rewrite app_cons. cbn [lstrip]. destruct (is_space a); [done|].
    by rewrite app_cons.
Qed.

Lemma length_app_str s t :
  String.length (s +:+ t) = String.length s + String.length t.
Proof. induction s as [|a s IH]; [done|]. rewrite app_cons. simpl. by rewrite IH. Qed.

(** A replacement by a text that is not empty never shortens, and one by a
    longer text lengthens wherever the character occurs. *)
Lemma length_replace_le c (r : string) s :
  1 <= String.length r -> String.length s <= String.length (replace c r s).
Proof.
  intros Hr. induction s as [|a s IH]; [done|]. cbn [replace].
  rewrite length_app_str. destruct (Ascii.eqb a c); simpl in *; lia.
Qed.

Lemma length_replace_lt c (r : string) s :
  2 <= String.length r -> contains (str1 c) s = true ->
  String.length s < String.length (replace c r s).
Proof.
  intros Hr. induction s as [|a s IH]; [done|].
  cbn [contains startswith str1]. rewrite andb_true_r. cbn [replace].
  rewrite length_app_str. pose proof (length_replace_le c r s).
  rewrite (Ascii.eqb_sym c a). destruct (Ascii.eqb a c); simpl in *; [lia|].
  intros Hs. specialize (IH Hs). lia.
Qed.

Lemma replace_absent c (r : string) s :
  contains (str1 c) s = false -> replace c r s = s.
Proof.
  induction s as [|a s IH]; [done|]. cbn [contains startswith replace str1].
  rewrite andb_true_r. intros [Ha Hs]%orb_false_iff.
  rewrite Ascii.eqb_sym, Ha. by rewrite IH.
Qed.

End MoreStrFacts.

(** ** Literals and what they parse to *)

Section Literals.

Variable float_str : float_lit -> string.

(** The value depends on the normalised text alone. *)
Lemma parse_value_normalise (v1 v2 : string) :
  normalise v1 = normalise v2 -> parse_value v1 = parse_value v2.
Proof.
  intros Hn. pose proof (parse_value_unfold v1) as H1.
  pose proof (parse_value_unfold v2) as H2.
  rewrite parse_value_body_steps in H1, H2. rewrite Hn in H1. congruence.
Qed.

Lemma quoted_text_value (s : string) :
  parse_value (String dquote (s +:+ str1 dquote)) = VStr s.
Proof.
  set (q := String dquote (s +:+ str1 dquote)).
  assert (He : endswith (str1 dquote) q = true).
  { unfold q. rewrite endswith_char_cons, is_empty_app_char.
    apply endswith_app_char. }
  assert (Hstrip : strip q = q).
  { unfold strip, q. rewrite lstrip_nonspace by reflexivity.
    by apply (rstrip_endswith dquote). }
  assert (Hn : normalise q = q).
  { unfold normalise. rewrite Hstrip.
    destruct (endswith "," q) eqn:Hc; [|done].
    by pose proof (endswith_char_unique _ _ _ Hc He). }
  assert (Hq : is_quoted q = true).
  { unfold is_quoted. by rewrite He. }
  pose proof (parse_value_unfold q) as H.
  rewrite parse_value_body_steps, Hn in H. cbv zeta in H.
  change (String.eqb (lower q) "true") with false in H.
  change (String.eqb (lower q) "false") with false in H.
  change (String.eqb (lower q) "null") with false in H.
  rewrite Hq in H. injection H as <-.
  unfold slice_1_m1, q. cbn [tail]. by rewrite drop_last_app_char.
Qed.

(** A text between two double quotes is read as the str between them,
    whatever that text is: a keyword, digits or brackets inside quotes stay
    text, and nothing inside is unescaped. *)
Theorem parse_value_quoted (s : string) :
  parse_value (String dquote (s +:+ str1 dquote)) = VStr s.
Proof. exact (quoted_text_value s). Qed.

(** Whitespace around a literal does not change its value. *)
Theorem parse_value_strip (value : string) :
  parse_value (strip value) = parse_value value.
Proof.
  apply parse_value_normalise. unfold normalise. by rewrite strip_idem.
Qed.

(** One comma after a literal does not change its value, when the literal
    does not itself end in a comma. *)
Theorem parse_value_trailing_comma (value : string) :
  endswith "," (strip value) = false ->
  parse_value (value +:+ ",") = parse_value value.
Proof.
  intros Hc. apply parse_value_normalise. unfold normalise. rewrite Hc.
  assert (Hs : strip (value +:+ ",") = lstrip value +:+ ",").
  { unfold strip. rewrite lstrip_app_nonspace by reflexivity.
    by apply (rstrip_app_char ","). }
  rewrite Hs.
  rewrite (endswith_app_char "," (lstrip value)
             : endswith "," (lstrip value +:+ ",") = true).
  rewrite (drop_last_app_char (lstrip value) ","
             : drop_last (lstrip value +:+ ",") = lstrip value).
  apply strip_lstrip.
Qed.

(** The escaping changes a text exactly when the text holds a backslash
    or a double quote. *)
Lemma escaped_fixed (s : string) :
  escaped s = s
  <-> contains (str1 backslash) s = false /\ contains (str1 dquote) s = false.
Proof.
  unfold escaped. split.
  - intros He. apply (f_equal String.length) in He.
    set (t := replace backslash (String backslash (str1 backslash)) s) in *.
    assert (Hst : String.length s <= String.length t)
      by (apply length_replace_le; simpl; lia).
    assert (Htt : String.length t
                  <= String.length (replace dquote (String backslash (str1 dquote)) t))
      by (apply length_replace_le; simpl; lia).
    destruct (contains (str1 backslash) s) eqn:Hb.
    { pose proof (length_replace_lt backslash (String backslash (str1 backslash)) s) as Hlt.
      fold t in Hlt. simpl in Hlt. specialize (Hlt ltac:(lia) Hb). lia. }
    split; [done|]. unfold t in He. rewrite (replace_absent backslash) in He by done.
    destruct (contains (str1 dquote) s) eqn:Hd; [|done].
    pose proof (length_replace_lt dquote (String backslash (str1 dquote)) s) as Hlt.
    simpl in Hlt. specialize (Hlt ltac:(lia) Hd). lia.
  - intros [Hb Hd]. by rewrite (replace_absent backslash), replace_absent.
Qed.

(** A str that [format_env_value] puts in quotes is read back by
    [parse_value] as the escaped text: the parser removes the quotes and
    undoes no escape, so the str itself comes back exactly when it holds no
    backslash and no double quote. *)
Theorem format_then_parse_quoted_str (s : string) :
  needs_quotes s = true ->
  parse_value (format_env_value float_str (VStr s)) = VStr (escaped s)
  /\ (parse_value (format_env_value float_str (VStr s)) = VStr s
      <-> contains (str1 backslash) s = false /\ contains (str1 dquote) s = false).
Proof.
  intros Hq.
  assert (Hp : parse_value (format_env_value float_str (VStr s)) = VStr (escaped s)).
  { unfold format_env_value, py_str. fold (needs_quotes s). rewrite Hq.
    fold (escaped s). change (str1 dquote +:+ escaped s +:+ str1 dquote)
      with (String dquote (escaped s +:+ str1 dquote)).
    apply quoted_text_value. }
  split; [done|]. rewrite Hp, <- escaped_fixed. split; congruence.
Qed.

End Literals.

Lemma parse_value_trailing_comma_witness :
  parse_value ("42" +:+ ",") = parse_value "42".
Proof. by apply (parse_value_trailing_comma "42"). Defined.

Lemma format_then_parse_quoted_str_witness :
  parse_value (format_env_value float_str_unused (VStr "hello world"))
    = VStr (escaped "hello world")
  /\ parse_value (format_env_value float_str_unused (VStr "hello world"))
      = VStr "hello world".
Proof.
  split.
  - by apply (proj1 (format_then_parse_quoted_str float_str_unused "hello world" eq_refl)).
  - by apply (proj2 (format_then_parse_quoted_str float_str_unused "hello world" eq_refl)).
Defined.

(** ** The dict of the scanner *)

Section Dict.

Implicit Types (d : tfvars_dict) (k : string) (v : Value).

(** Reading after an assignment: the assigned key has the new value, every
    other key what it had. *)
Theorem dict_get_set d k v k' :
  dict_get (dict_set d k v) k' = if String.eqb k k' then Some v else dict_get d k'.
Proof.
  induction d as [|[k0 v0] d IH]; cbn [dict_set dict_get].
  - done.
  - destruct (String.eqb k0 k) eqn:E0; cbn [dict_get].
    + apply String.eqb_eq in E0 as ->. by destruct (String.eqb k k').
    + rewrite IH. destruct (String.eqb k0 k') eqn:E1; [|done].
      apply String.eqb_eq in E1 as ->. by rewrite String.eqb_sym, E0.
Qed.

(** An assignment keeps the keys in place and adds a new key at the end. *)
Lemma dict_set_keys d k v :
  (dict_set d k v).*1 = if decide (k ∈ d.*1) then d.*1 else (d.*1 ++ [k])%list.
Proof.
  induction d as [|[k0 v0] d IH]; cbn [dict_set].
  - by rewrite decide_False by apply not_elem_of_nil.
  - destruct (String.eqb k0 k) eqn:E0.
    + apply String.eqb_eq in E0 as ->. cbn. rewrite decide_True; [done|].
      apply list_elem_of_here.
    + apply String.eqb_neq in E0. cbn [fmap list_fmap fst]. rewrite IH.
      destruct (decide (k ∈ d.*1)) as [Hin|Hin].
      * rewrite decide_True; [done|]. by apply list_elem_of_further.
      * rewrite decide_False; [done|]. intros [->|?]%elem_of_cons; done.
Qed.

Lemma dict_set_NoDup d k v : NoDup d.*1 -> NoDup (dict_set d k v).*1.
Proof.
  intros Hnd. rewrite dict_set_keys. destruct (decide (k ∈ d.*1)); [done|].
  apply NoDup_app. split; [done|]. split; [|apply NoDup_singleton].
  intros x Hx ->%list_elem_of_singleton. done.
Qed.

Lemma dict_set_keys_Forall (P : string -> Prop) d k v :
  Forall P d.*1 -> P k -> Forall P (dict_set d k v).*1.
Proof.
  intros Hd Hk. rewrite dict_set_keys. destruct (decide (k ∈ d.*1)); [done|].
  apply Forall_app. split; [done|]. by constructor.
Qed.

End Dict.

(** ** Keys *)

Section Keys.

Implicit Types (s : string) (c a : ascii).

Lemma contains_char_cons c a s :
  contains (str1 c) (String a s) = Ascii.eqb c a || contains (str1 c) s.
Proof. cbn [contains startswith str1]. by rewrite andb_true_r. Qed.

Lemma contains_char_lstrip c s :
  contains (str1 c) s = false -> contains (str1 c) (lstrip s) = false.
Proof.
  induction s as [|a s IH]; [done|]. cbn [lstrip].
  destruct (is_space a); [|done].
  rewrite contains_char_cons. intros [_ H]%orb_false_iff. by apply IH.
Qed.

Lemma contains_char_rstrip c s :
  contains (str1 c) s = false -> contains (str1 c) (rstrip s) = false.
Proof.
  induction s as [|a s IH]; [done|]. cbn [rstrip].
  rewrite contains_char_cons. intros [Ha H]%orb_false_iff.
  destruct (is_empty (rstrip s) && is_space a); [done|].
  rewrite contains_char_cons, Ha. by apply IH.
Qed.

Lemma contains_char_strip c s :
  contains (str1 c) s = false -> contains (str1 c) (strip s) = false.
Proof. intros H. by apply contains_char_rstrip, contains_char_lstrip. Qed.

Lemma partition_before_no_sep c s : contains (str1 c) (partition c s).1.1 = false.
Proof.
  induction s as [|a s IH]; [done|]. cbn [partition].
  destruct (Ascii.eqb a c) eqn:Ha; [done|].
  destruct (partition c s) as [[b m] r]. cbn [fst] in *.
  by rewrite contains_char_cons, Ascii.eqb_sym, Ha.
Qed.

(** The key taken from a line is stripped and holds no equals sign. *)
Lemma partition_key_ok s : key_ok (strip (partition "=" s).1.1).
Proof.
  split; [apply strip_idem|].
  apply (contains_char_strip "="), partition_before_no_sep.
Qed.

End Keys.

(** ** What the scanner keeps *)

Section ScannerInvariants.

(** A property of the dict that every assignment of an acceptable key
    keeps is kept by the scan. *)
Lemma parse_lines_invariant (P : tfvars_dict -> Prop) :
  (forall d key v, P d -> key_ok key -> P (dict_set d key v)) ->
  forall fuel lines i variables,
    P variables -> P (parse_lines fuel lines i variables).
Proof.
  intros Hset fuel lines. induction fuel as [|fuel IH]; intros i variables HP;
    cbn [parse_lines]; [done|].
  destruct (lines !! i) as [raw|]; [|done].
  destruct (is_empty (strip raw) || startswith "#" (strip raw)
            || startswith "//" (strip raw)); [by apply IH|].
  destruct (contains "=" (strip raw)); [|by apply IH].
  pose proof (partition_key_ok (strip raw)) as Hkey.
  destruct (partition "=" (strip raw)) as [[key sep] value]. cbn [fst] in Hkey.
  match goal with |- context [if ?b then _ else _] => destruct b end.
  - match goal with |- context [collect_multiline ?r ?j ?m ?b] =>
      destruct (collect_multiline r j m b) as [mv i'] end.
    apply IH. by apply Hset.
  - apply IH. by apply Hset.
Qed.

(** No key occurs twice in what [parse_tfvars] returns, and every key is
    stripped and holds no equals sign. *)
Theorem parse_tfvars_keys (text : string) :
  NoDup (parse_tfvars_text text).*1
  /\ Forall key_ok (parse_tfvars_text text).*1.
Proof.
  unfold parse_tfvars_text. split.
  - apply (parse_lines_invariant (fun d => NoDup d.*1)); [|constructor].
    intros d key v Hd _. by apply dict_set_NoDup.
  - apply (parse_lines_invariant (fun d => Forall key_ok d.*1)); [|constructor].
    intros d key v Hd Hk. by apply dict_set_keys_Forall.
Qed.

(** When no line opens a value over several lines the scan is a pass over
    the lines in order, each line giving its own record: none is skipped. *)
Lemma parse_lines_single (fuel : nat) (lines : list string) (i : nat)
    (variables : tfvars_dict) :
  List.length lines - i <= fuel ->
  Forall (fun raw => forall key value,
            line_assignment raw = Some (key, value) -> opens_multiline value = false)
         lines ->
  parse_lines fuel lines i variables = foldl assign_line variables (drop i lines).
Proof.
  intros Hfuel Hall. revert i variables Hfuel.
  induction fuel as [|fuel IH]; intros i variables Hfuel.
  - cbn [parse_lines]. by rewrite drop_ge by lia.
  - cbn [parse_lines]. destruct (lines !! i) as [raw|] eqn:Hraw.
    2:{ apply lookup_ge_None_1 in Hraw. by rewrite drop_ge by lia. }
    rewrite (drop_S _ _ _ Hraw). cbn [foldl].
    pose proof (proj1 (Forall_forall _ _) Hall raw
                  (list_elem_of_lookup_2 _ _ _ Hraw)) as Hline.
    apply lookup_lt_Some in Hraw.
    unfold assign_line at 2. unfold line_assignment in Hline |- *.
    destruct (is_empty (strip raw) || startswith "#" (strip raw)
              || startswith "//" (strip raw)); [apply IH; lia|].
    destruct (contains "=" (strip raw)); [|apply IH; lia].
    destruct (partition "=" (strip raw)) as [[key sep] value].
    specialize (Hline _ _ eq_refl). unfold opens_multiline in Hline.
    rewrite Hline. apply IH; lia.
Qed.

Theorem parse_tfvars_single_lines (text : string) :
  Forall (fun raw => forall key value,
            line_assignment raw = Some (key, value) -> opens_multiline value = false)
         (readlines text) ->
  parse_tfvars_text text = foldl assign_line [] (readlines text).
Proof.
  intros Hall. unfold parse_tfvars_text.
  rewrite (parse_lines_single _ _ 0 []); [by rewrite drop_0|lia|done].
Qed.

End ScannerInvariants.

Lemma parse_tfvars_single_lines_witness :
  parse_tfvars_text region_source = foldl assign_line [] (readlines region_source).
Proof.
  apply (parse_tfvars_single_lines region_source).
  repeat constructor; intros key value [= <- <-]; reflexivity.
Defined.

(** ** More on the merge loop *)

Section MoreMerge.

Variable float_str : float_lit -> string.

(** The counters take no part in what the map becomes. *)
Lemma merge_step_env_counters (prefix : string) (st st' : MergeState) (kv : string * Value) :
  env_vars st = env_vars st' ->
  env_vars (merge_step float_str prefix st kv) = env_vars (merge_step float_str prefix st' kv).
Proof. intros H. by rewrite !merge_step_env, H. Qed.

Lemma merge_env_counters (prefix : string) (tfvars : tfvars_dict) (st st' : MergeState) :
  env_vars st = env_vars st' ->
  env_vars (foldl (merge_step float_str prefix) st tfvars) = env_vars (foldl (merge_step float_str prefix) st' tfvars).
Proof.
  revert st st'. induction tfvars as [|kv tfvars IH]; intros st st' H; [done|].
  cbn [foldl]. by apply IH, merge_step_env_counters.
Qed.

(** A transformed source key ends with a value that the start map has no
    part in. *)
Lemma merge_lookup_source_key (prefix : string) (tfvars : tfvars_dict) (k : string) :
  k ∈ env_key_of prefix <$> tfvars.*1 ->
  exists value, forall st, env_vars (foldl (merge_step float_str prefix) st tfvars) !! k = Some value.
Proof.
  induction tfvars as [|kv tfvars IH] using rev_ind.
  - by intros ?%elem_of_nil.
  - rewrite !fmap_app. intros Hk.
    destruct (decide (k = env_key_of prefix kv.1)) as [->|Hne].
    + exists (format_env_value float_str kv.2). intros st. rewrite foldl_snoc, merge_step_env.
      apply lookup_insert_eq.
    + apply elem_of_app in Hk as [Hk|Hk].
      * destruct (IH Hk) as [value Hv]. exists value. intros st.
        rewrite foldl_snoc, merge_step_env, lookup_insert_ne by done. apply Hv.
      * apply list_elem_of_singleton in Hk. done.
Qed.

Lemma merge_lookup_assigned (prefix : string) (tfvars : tfvars_dict)
    (existing : gmap string string) (key : string) (v : Value) :
  NoDup (env_key_of prefix <$> tfvars.*1) ->
  (key, v) ∈ tfvars ->
  env_vars (merge_tfvars float_str prefix tfvars existing) !! env_key_of prefix key
    = Some (format_env_value float_str v).
Proof.
  unfold merge_tfvars. generalize (mkMerge existing 0 0).
  induction tfvars as [|kv tfvars IH]; intros st Hnd Hin.
  - by apply elem_of_nil in Hin.
  - rewrite !fmap_cons in Hnd. apply NoDup_cons in Hnd as [Hnotin Hnd].
    cbn [foldl]. apply elem_of_cons in Hin as [<-|Hin].
    + rewrite merge_tfvars_lookup_other by done.
      rewrite merge_step_env. apply lookup_insert_eq.
    + by apply IH.
Qed.

(** When no two source variables share a transformed key, each of them is
    in the final map under its transformed key with its formatted value. *)
Theorem merge_assigns_source_keys (prefix : string) (tfvars : tfvars_dict)
    (existing : gmap string string) (key : string) (v : Value) :
  NoDup (env_key_of prefix <$> tfvars.*1) ->
  (key, v) ∈ tfvars ->
  env_vars (merge_tfvars float_str prefix tfvars existing) !! env_key_of prefix key
    = Some (format_env_value float_str v).
Proof. apply merge_lookup_assigned. Qed.

(** Every source variable is counted at most once. *)
Lemma merge_counts_le (prefix : string) (tfvars : tfvars_dict) (st : MergeState) :
  new_count (foldl (merge_step float_str prefix) st tfvars) + updated_count (foldl (merge_step float_str prefix) st tfvars)
    <= new_count st + updated_count st + List.length tfvars.
Proof.
  revert st. induction tfvars as [|kv tfvars IH]; intros st; cbn [foldl List.length]; [lia|].
  etrans; [apply IH|].
  assert (new_count (merge_step float_str prefix st kv) + updated_count (merge_step float_str prefix st kv)
            <= S (new_count st + updated_count st)); [|lia].
  unfold merge_step. destruct (env_vars st !! _); [destruct (negb _)|]; simpl; lia.
Qed.

Theorem sync_counts_bounded (fs fs' : FS) (tfvars_file env_file : Path)
    (prefix : string) (overwrite : bool) (summary : SyncSummary) (text : string) :
  fs tfvars_file = Some text ->
  sync_tfvars_to_env float_str fs tfvars_file env_file prefix overwrite
    = (Returned summary, fs') ->
  summary_new summary + summary_updated summary
    <= List.length (parse_tfvars_text (universal_newlines text)).
Proof.
  unfold sync_tfvars_to_env, parse_tfvars. intros ->. intros [= <- _]. simpl.
  unfold merge_tfvars.
  pose proof (merge_counts_le prefix (parse_tfvars_text (universal_newlines text))
                (mkMerge (initial_env fs env_file overwrite) 0 0)) as H.
  simpl in H. lia.
Qed.

(** Keys that are in the map already are not counted as new. *)
Lemma merge_present_not_new (prefix : string) (tfvars : tfvars_dict) (st : MergeState) :
  (forall k, k ∈ env_key_of prefix <$> tfvars.*1 -> is_Some (env_vars st !! k)) ->
  new_count (foldl (merge_step float_str prefix) st tfvars) = new_count st.
Proof.
  revert st. induction tfvars as [|kv tfvars IH]; intros st Hin; [done|].
  cbn [foldl]. rewrite IH.
  - unfold merge_step. destruct (Hin (env_key_of prefix kv.1)) as [old Hold].
    { rewrite !fmap_cons. apply list_elem_of_here. }
    unfold env_key_of in Hold. rewrite Hold. by destruct (negb _).
  - intros k Hk. rewrite merge_step_env.
    apply lookup_insert_is_Some'. right. apply Hin.
    rewrite !fmap_cons. by apply list_elem_of_further.
Qed.

(** Variables that are in the map with their formatted values leave the
    map and the count of updates as they are. *)
Lemma merge_present_same (prefix : string) (tfvars : tfvars_dict) (st : MergeState) :
  (forall kv, kv ∈ tfvars ->
     env_vars st !! env_key_of prefix kv.1 = Some (format_env_value float_str kv.2)) ->
  env_vars (foldl (merge_step float_str prefix) st tfvars) = env_vars st
  /\ updated_count (foldl (merge_step float_str prefix) st tfvars) = updated_count st.
Proof.
  revert st. induction tfvars as [|kv tfvars IH]; intros st Hin; [done|].
  cbn [foldl]. pose proof (Hin kv (list_elem_of_here _ _)) as Hkv.
  assert (Henv : env_vars (merge_step float_str prefix st kv) = env_vars st).
  { rewrite merge_step_env. by apply insert_id. }
  assert (Hupd : updated_count (merge_step float_str prefix st kv) = updated_count st).
  { unfold merge_step. unfold env_key_of in Hkv. rewrite Hkv.
    by rewrite String.eqb_refl. }
  destruct (IH (merge_step float_str prefix st kv)) as [IH1 IH2].
  { intros kv' Hkv'. rewrite Henv. apply Hin. by apply list_elem_of_further. }
  split; congruence.
Qed.

(** Merging the same variables into the map a merge ended with changes
    nothing in the map and counts no new variable; it counts no update
    either when no two source variables share a transformed key. *)
Theorem merge_twice (prefix : string) (tfvars : tfvars_dict)
    (existing : gmap string string) :
  let st1 := merge_tfvars float_str prefix tfvars existing in
  let st2 := merge_tfvars float_str prefix tfvars (env_vars st1) in
  env_vars st2 = env_vars st1
  /\ new_count st2 = 0
  /\ (NoDup (env_key_of prefix <$> tfvars.*1) -> updated_count st2 = 0).
Proof.
  intros st1 st2. split; [|split].
  - apply map_eq. intros k. unfold st2, merge_tfvars.
    destruct (decide (k ∈ env_key_of prefix <$> tfvars.*1)) as [Hk|Hk].
    + destruct (merge_lookup_source_key prefix tfvars k Hk) as [value Hv].
      rewrite Hv. unfold st1, merge_tfvars. by rewrite Hv.
    + by rewrite merge_tfvars_lookup_other.
  - unfold st2, merge_tfvars. rewrite merge_present_not_new; [done|].
    intros k Hk. cbn [env_vars].
    destruct (merge_lookup_source_key prefix tfvars k Hk) as [value Hv].
    unfold st1, merge_tfvars. rewrite Hv. by eexists.
  - intros Hnd. unfold st2, merge_tfvars.
    apply (merge_present_same prefix tfvars (mkMerge (env_vars st1) 0 0)).
    intros [key v] Hin. cbn [env_vars fst snd].
    by apply merge_lookup_assigned.
Qed.

(** The keys of the final map are those of the start map and the
    transformed source keys, and no others. *)
Theorem merge_domain (prefix : string) (tfvars : tfvars_dict)
    (existing : gmap string string) (k : string) :
  is_Some (env_vars (merge_tfvars float_str prefix tfvars existing) !! k)
  <-> is_Some (existing !! k) \/ k ∈ env_key_of prefix <$> tfvars.*1.
Proof.
  unfold merge_tfvars.
  destruct (decide (k ∈ env_key_of prefix <$> tfvars.*1)) as [Hk|Hk].
  - destruct (merge_lookup_source_key prefix tfvars k Hk) as [value Hv].
    rewrite Hv. split; [by right|by eexists].
  - rewrite merge_tfvars_lookup_other by done. cbn [env_vars]. tauto.
Qed.


End MoreMerge.

Lemma merge_assigns_source_keys_witness :
  env_vars (merge_tfvars float_str_unused "APP_" (parse_tfvars_text region_source) ∅)
    !! env_key_of "APP_" "region"
    = Some (format_env_value float_str_unused (VStr "us-east-1")).
Proof.
  apply (merge_assigns_source_keys float_str_unused "APP_"
           (parse_tfvars_text region_source) ∅ "region" (VStr "us-east-1")).
  - vm_compute. apply NoDup_singleton.
  - vm_compute. apply list_elem_of_here.
Defined.

Lemma sync_counts_bounded_witness :
  summary_new (mkSummary 0 1 2) + summary_updated (mkSummary 0 1 2)
    <= List.length (parse_tfvars_text (universal_newlines region_source)).
Proof.
  apply (sync_counts_bounded float_str_unused region_files
           (sync_tfvars_to_env float_str_unused region_files example_tfvars_path
              example_env_path EmptyString false).2
           example_tfvars_path example_env_path EmptyString false
           (mkSummary 0 1 2) region_source).
  - by vm_compute.
  - by vm_compute.
Defined.

Lemma merge_twice_witness :
  updated_count
    (merge_tfvars float_str_unused EmptyString (parse_tfvars_text quoted_value_source)
       (env_vars (merge_tfvars float_str_unused EmptyString
                    (parse_tfvars_text quoted_value_source) ∅))) = 0.
Proof.
  apply (merge_twice float_str_unused EmptyString
           (parse_tfvars_text quoted_value_source) ∅).
  vm_compute. apply NoDup_singleton.
Defined.



(** ** Reading back what was written *)

Section ReadBack.

Implicit Types (s t r : string) (a c : ascii) (m : gmap string string).

Lemma lstrip_length_lt a s :
  is_space a = true -> String.length (lstrip (String a s)) < String.length (String a s).
Proof.
  intros Ha. cbn [lstrip]. rewrite Ha. pose proof (length_lstrip s). simpl. lia.
Qed.

(** A stripped text is left alone by each of the two strips. *)
Lemma strip_fixed_lstrip s : strip s = s -> lstrip s = s.
Proof.
  intros Hs. destruct s as [|a s]; [done|].
  destruct (is_space a) eqn:Ha; [|by apply lstrip_nonspace].
  pose proof (lstrip_length_lt a s Ha). pose proof (length_rstrip (lstrip (String a s))).
  unfold strip in Hs. rewrite Hs in *. lia.
Qed.

Lemma strip_fixed_rstrip s : strip s = s -> rstrip s = s.
Proof.
  intros Hs. pose proof (strip_fixed_lstrip s Hs) as Hl.
  unfold strip in Hs. by rewrite Hl in Hs.
Qed.

Lemma rstrip_app s t :
  rstrip (s +:+ t) = if is_empty (rstrip t) then rstrip s else s +:+ rstrip t.
Proof.
  induction s as [|a s IH].
  - change (EmptyString +:+ t) with t. change (EmptyString +:+ rstrip t) with (rstrip t).
    by destruct (rstrip t).
  - rewrite app_cons. cbn [rstrip]. rewrite IH.
    destruct (is_empty (rstrip t)) eqn:E; [done|].
    rewrite app_cons. destruct (rstrip t); [done|]. by rewrite is_empty_app_cons.
Qed.

Lemma rstrip_newline : rstrip nl = EmptyString.
Proof. reflexivity. Qed.

Lemma rstrip_app_newline s : rstrip (s +:+ nl) = rstrip s.
Proof. by rewrite rstrip_app, rstrip_newline. Qed.

Lemma startswith_app_sep b s c t :
  Ascii.eqb b c = false ->
  startswith (str1 b) s = false -> startswith (str1 b) (s +:+ String c t) = false.
Proof.
  intros Hc Hs. destruct s as [|a s].
  - change (EmptyString +:+ String c t) with (String c t).
    cbn [startswith str1]. by rewrite Hc.
  - rewrite app_cons. cbn [startswith str1] in Hs |- *. by rewrite andb_true_r in *.
Qed.

Lemma contains_app_char c s t : contains (str1 c) (s +:+ String c t) = true.
Proof.
  induction s as [|a s IH].
  - change (EmptyString +:+ String c t) with (String c t).
    by rewrite contains_char_cons, Ascii.eqb_refl.
  - by rewrite app_cons, contains_char_cons, IH, orb_true_r.
Qed.

Lemma partition_app c s t :
  contains (str1 c) s = false ->
  partition c (s +:+ String c t) = (s, str1 c, t).
Proof.
  induction s as [|a s IH].
  - intros _. change (EmptyString +:+ String c t) with (String c t).
    cbn [partition]. by rewrite Ascii.eqb_refl.
  - rewrite contains_char_cons, app_cons. intros [Ha Hs]%orb_false_iff.
    cbn [partition]. rewrite Ascii.eqb_sym, Ha. by rewrite IH.
Qed.

Lemma read_written_line m (key value : string) :
  key_ok key -> startswith "#" key = false ->
  read_env_line m (key +:+ "=" +:+ value +:+ nl)
    = <[key := unquote (strip value)]> m.
Proof.
  intros [Hstrip Heq] Hhash.
  assert (Hline : strip (key +:+ "=" +:+ value +:+ nl)
                  = key +:+ String "=" (rstrip value)).
  { unfold strip. change ("=" +:+ value +:+ nl) with (String "=" (value +:+ nl)).
    rewrite lstrip_app_nonspace by reflexivity.
    rewrite (strip_fixed_lstrip _ Hstrip), rstrip_app.
    rewrite rstrip_cons_nonspace by reflexivity. cbn [is_empty].
    by rewrite rstrip_app_newline. }
  unfold read_env_line. rewrite Hline.
  rewrite is_empty_app_cons. cbn [orb].
  rewrite (startswith_app_sep "#" key "=" (rstrip value) eq_refl Hhash
             : startswith "#" (key +:+ String "=" (rstrip value)) = false).
  rewrite (contains_app_char "=" key (rstrip value)
             : contains "=" (key +:+ String "=" (rstrip value)) = true).
  rewrite (partition_app "=" key (rstrip value)) by done.
  by rewrite Hstrip, strip_rstrip.
Qed.

(** The line written for an acceptable key is read back as that key with
    the value stripped and rid of one pair of quotes. *)
Theorem read_env_line_written m (key value : string) :
  key_ok key -> startswith "#" key = false ->
  read_env_line m (key +:+ "=" +:+ value +:+ nl)
    = <[key := unquote (strip value)]> m.
Proof. apply read_written_line. Qed.

End ReadBack.

Lemma read_env_line_written_witness :
  read_env_line ∅ ("NAME" +:+ "=" +:+ (str1 dquote +:+ "hello world" +:+ str1 dquote) +:+ nl)
    = <["NAME" := unquote (strip (str1 dquote +:+ "hello world" +:+ str1 dquote))]> ∅.
Proof.
  apply (read_env_line_written ∅ "NAME"); [split|]; reflexivity.
Defined.

(** ** Lines of a text *)

Section Lines.

Implicit Types (s t rest cur : string) (c a : ascii) (ls : list string).

Lemma rev_app_rev_app s u t :
  String.rev_app (String.rev_app s u) t = String.rev_app u (s +:+ t).
Proof.
  revert u. induction s as [|a s IH]; intros u; [done|].
  cbn [String.rev_app]. by rewrite IH.
Qed.

Lemma contains_char_app c s t :
  contains (str1 c) (s +:+ t) = contains (str1 c) s || contains (str1 c) t.
Proof.
  induction s as [|a s IH]; [done|].
  by rewrite app_cons, !contains_char_cons, IH, orb_assoc.
Qed.

Lemma readlines_go_line s cur rest :
  no_lf s = true ->
  readlines_go cur (s +:+ String nlc rest)
    = String.rev (String nlc (String.rev_app s cur)) :: readlines_go EmptyString rest.
Proof.
  unfold no_lf. revert cur. induction s as [|a s IH]; intros cur Hs.
  - change (EmptyString +:+ String nlc rest) with (String nlc rest).
    cbn [readlines_go]. by change (Ascii.eqb nlc "010") with true.
  - rewrite contains_char_cons, negb_orb in Hs. apply andb_true_iff in Hs as [Ha Hs].
    rewrite app_cons. cbn [readlines_go String.rev_app].
    change "010"%char with nlc. rewrite Ascii.eqb_sym.
    apply negb_true_iff in Ha. rewrite Ha. by apply IH.
Qed.

(** A line without a newline inside is the first element of [readlines]. *)
Lemma readlines_line s rest :
  no_lf s = true ->
  readlines (with_newline s +:+ rest) = with_newline s :: readlines rest.
Proof.
  intros Hs. unfold readlines, with_newline. rewrite app_assoc_str.
  change (nl +:+ rest) with (String nlc rest).
  rewrite readlines_go_line by done. f_equal.
  unfold String.rev. cbn [String.rev_app]. by rewrite rev_app_rev_app.
Qed.

Lemma concat_empty_cons s ls :
  String.concat EmptyString (s :: ls) = s +:+ String.concat EmptyString ls.
Proof. destruct ls; [by rewrite app_nil_r|done]. Qed.

Lemma concat_empty_app ls1 ls2 :
  String.concat EmptyString (ls1 ++ ls2)
    = String.concat EmptyString ls1 +:+ String.concat EmptyString ls2.
Proof.
  induction ls1 as [|s ls1 IH]; [done|].
  rewrite <- app_comm_cons, !concat_empty_cons, IH. by rewrite app_assoc_str.
Qed.

(** [readlines] gives back the lines a text was put together from. *)
Lemma readlines_lines ls :
  Forall (fun s => no_lf s = true) ls ->
  readlines (String.concat EmptyString (with_newline <$> ls)) = with_newline <$> ls.
Proof.
  induction 1 as [|s ls Hs _ IH]; [done|].
  rewrite fmap_cons, concat_empty_cons, readlines_line by done. by rewrite IH.
Qed.

Lemma concat_split c s : String.concat (str1 c) (split c s) = s.
Proof.
  induction s as [|a s IH]; [done|]. cbn [split].
  pose proof (split_nonnil c s) as Hnil.
  destruct (Ascii.eqb a c) eqn:Ha.
  - apply Ascii.eqb_eq in Ha as ->. destruct (split c s) as [|h t]; [done|].
    cbn [String.concat] in *. by rewrite <- IH.
  - destruct (split c s) as [|h t]; [done|].
    destruct t as [|h' t]; cbn [String.concat] in *; by rewrite <- IH.
Qed.

Lemma split_no_sep c s : Forall (fun p => contains (str1 c) p = false) (split c s).
Proof.
  induction s as [|a s IH]; [by repeat constructor|]. cbn [split].
  destruct (Ascii.eqb a c) eqn:Ha; [by constructor|].
  destruct (split c s) as [|h t]; [repeat constructor|].
  - by rewrite contains_char_cons, Ascii.eqb_sym, Ha.
  - apply Forall_cons in IH as [Hh Ht]. constructor; [|done].
    by rewrite contains_char_cons, Ascii.eqb_sym, Ha.
Qed.

Lemma concat_sep_lines (sep : string) ls :
  ls <> [] ->
  String.concat sep ls +:+ sep
    = String.concat EmptyString ((fun s => s +:+ sep) <$> ls).
Proof.
  induction ls as [|s ls IH]; [done|]. intros _.
  rewrite fmap_cons, concat_empty_cons.
  destruct ls as [|s' ls]; [by rewrite app_nil_r|].
  rewrite <- IH by done. cbn [String.concat]. by rewrite !app_assoc_str.
Qed.

(** A text followed by a newline is its pieces between newlines, each with
    its newline. *)
Lemma text_lines s :
  with_newline s = String.concat EmptyString (with_newline <$> split nlc s).
Proof.
  unfold with_newline at 1. rewrite <- (concat_split nlc s) at 1.
  apply (concat_sep_lines nl), split_nonnil.
Qed.

Lemma strip_with_newline s : strip (with_newline s) = strip s.
Proof.
  unfold strip, with_newline.
  by rewrite <- lstrip_rstrip, rstrip_app_newline, lstrip_rstrip.
Qed.

End Lines.

(** ** A written file, read back *)

Section FileRoundTrip.

Implicit Types (m acc : gmap string string) (k v : string).

Lemma header_block_lines (header : option string) :
  header_block header = String.concat EmptyString (with_newline <$> header_lines header).
Proof.
  destruct header as [h|]; [|done]. cbn [header_block header_lines].
  destruct (is_empty h); [done|].
  rewrite fmap_app, concat_empty_app, <- text_lines.
  unfold with_newline. cbn [fmap list_fmap String.concat].
  by rewrite app_assoc_str.
Qed.

Lemma env_line_body m k : env_line m k = with_newline (body_line m k).
Proof. unfold env_line, body_line, with_newline. by rewrite !app_assoc_str. Qed.

Lemma render_env_lines m (header : option string) :
  render_env m header
    = String.concat EmptyString
        (with_newline <$> (header_lines header ++ (body_line m <$> sorted_keys m))%list).
Proof.
  unfold render_env. rewrite header_block_lines, fmap_app, concat_empty_app.
  do 2 f_equal. rewrite <- list_fmap_compose. apply list_fmap_ext.
  intros i k _. apply env_line_body.
Qed.

Lemma entry_ok_inv k v :
  entry_ok k v = true ->
  key_ok k /\ startswith "#" k = false /\ no_lf k = true /\ no_lf v = true
  /\ no_cr k = true /\ no_cr v = true.
Proof.
  unfold entry_ok, key_ok, no_newline.
  rewrite !andb_true_iff, !negb_true_iff, String.eqb_eq. tauto.
Qed.

Lemma read_env_line_skipped m (raw : string) :
  skipped_line raw = true -> read_env_line m raw = m.
Proof. unfold skipped_line, read_env_line. by intros ->. Qed.

Lemma skipped_with_newline (l : string) : skipped_line (with_newline l) = skipped_line l.
Proof. unfold skipped_line. by rewrite strip_with_newline. Qed.

Lemma read_skipped_lines m (ls : list string) :
  Forall (fun l => skipped_line l = true) ls ->
  foldl read_env_line m (with_newline <$> ls) = m.
Proof.
  induction 1 as [|l ls Hl _ IH]; [done|]. rewrite fmap_cons. cbn [foldl].
  rewrite read_env_line_skipped; [done|]. by rewrite skipped_with_newline.
Qed.

Lemma read_body_lines m acc (keys : list string) :
  Forall (fun k => key_ok k /\ startswith "#" k = false) keys ->
  foldl read_env_line acc (with_newline <$> (body_line m <$> keys))
    = foldl (fun acc k => <[k := read_value (default EmptyString (m !! k))]> acc) acc keys.
Proof.
  intros Hkeys. revert acc. induction Hkeys as [|k keys [Hk Hh] _ IH]; intros acc; [done|].
  rewrite !fmap_cons. cbn [foldl]. rewrite <- IH. f_equal.
  unfold with_newline, body_line. rewrite !app_assoc_str.
  by apply read_written_line.
Qed.

Lemma foldl_insert_lookup (g : string -> string) acc (keys : list string) k :
  foldl (fun acc k => <[k := g k]> acc) acc keys !! k
    = if decide (k ∈ keys) then Some (g k) else acc !! k.
Proof.
  induction keys as [|x keys IH] using rev_ind.
  - by rewrite decide_False by apply not_elem_of_nil.
  - rewrite foldl_snoc. destruct (decide (k = x)) as [->|Hne].
    + rewrite lookup_insert_eq, decide_True; [done|].
      apply elem_of_app. right. apply list_elem_of_here.
    + rewrite lookup_insert_ne, IH by done.
      destruct (decide (k ∈ keys)) as [Hin|Hin].
      * rewrite decide_True; [done|]. apply elem_of_app. by left.
      * rewrite decide_False; [done|].
        intros [?|?%list_elem_of_singleton]%elem_of_app; done.
Qed.

Lemma read_written_text m (header : option string) :
  map_Forall (fun k v => entry_ok k v = true) m ->
  (forall h, header = Some h -> Forall (fun l => skipped_line l = true) (split nlc h)) ->
  read_env_text (render_env m header) = read_value <$> m.
Proof.
  intros Hm Hheader. unfold read_env_text. rewrite render_env_lines.
  assert (Hkeys : Forall (fun k => exists v, m !! k = Some v /\ entry_ok k v = true)
                         (sorted_keys m)).
  { apply Forall_forall. intros k [v Hv]%sorted_keys_elem. exists v. split; [done|].
    by apply (Hm k v). }
  rewrite readlines_lines.
  2:{ apply Forall_app. split.
      - destruct header as [h|]; [|constructor]. cbn [header_lines].
        destruct (is_empty h); [constructor|]. apply Forall_app. split.
        + eapply Forall_impl; [apply (split_no_sep nlc h)|].
          intros l Hl. unfold no_lf. by rewrite Hl.
        + by repeat constructor.
      - apply Forall_fmap. eapply Forall_impl; [exact Hkeys|].
        intros k (v & Hv & Hok). apply entry_ok_inv in Hok as (_ & _ & Hnk & Hnv & _).
        change (no_lf (body_line m k) = true).
        unfold no_lf, body_line in *. rewrite Hv.
        change (default EmptyString (Some v)) with v.
        rewrite !contains_char_app. apply negb_true_iff in Hnk, Hnv.
        by rewrite Hnk, Hnv. }
  rewrite fmap_app, foldl_app, (read_skipped_lines ∅ (header_lines header)).
  2:{ destruct header as [h|]; [|constructor]. cbn [header_lines].
      destruct (is_empty h); [constructor|]. apply Forall_app. split.
      - by apply Hheader.
      - by repeat constructor. }
  rewrite read_body_lines.
  2:{ eapply Forall_impl; [exact Hkeys|]. intros k (v & _ & Hok).
      apply entry_ok_inv in Hok. tauto. }
  apply map_eq. intros k.
  rewrite (foldl_insert_lookup (fun k => read_value (default EmptyString (m !! k)))).
  rewrite lookup_fmap, lookup_empty.
  destruct (decide (k ∈ sorted_keys m)) as [Hin|Hin].
  - apply sorted_keys_elem in Hin as [v ->]. done.
  - destruct (m !! k) eqn:Hk; [|done]. exfalso. apply Hin, sorted_keys_elem. by eexists.
Qed.

Lemma split_line (s rest : string) :
  no_lf s = true -> split nlc (s +:+ String nlc rest) = s :: split nlc rest.
Proof.
  unfold no_lf. induction s as [|a s IH]; intros Hs.
  - change (EmptyString +:+ String nlc rest) with (String nlc rest).
    cbn [split]. by rewrite Ascii.eqb_refl.
  - rewrite contains_char_cons, negb_orb in Hs. apply andb_true_iff in Hs as [Ha Hs].
    rewrite app_cons. cbn [split]. apply negb_true_iff in Ha.
    rewrite Ascii.eqb_sym, Ha. by rewrite IH.
Qed.

(** The header that [sync_tfvars_to_env] writes is made of comments. *)
Lemma sync_header_skipped (tfvars_file : Path) :
  no_lf (path_name tfvars_file) = true ->
  Forall (fun l => skipped_line l = true) (split nlc (sync_header tfvars_file)).
Proof.
  intros Hname. unfold sync_header. rewrite <- app_assoc_str.
  match goal with |- context [split nlc (?a +:+ (nl +:+ ?r))] =>
    change (a +:+ (nl +:+ r)) with (a +:+ String nlc r);
    rewrite (split_line a r)
  end.
  - constructor; [|by vm_compute; repeat constructor].
    unfold skipped_line, strip.
    change ("# Environment variables synced from " +:+ path_name tfvars_file)
      with (String "#" (" Environment variables synced from " +:+ path_name tfvars_file)).
    rewrite lstrip_nonspace, rstrip_cons_nonspace by reflexivity. reflexivity.
  - unfold no_lf in *. rewrite contains_char_app.
    apply negb_true_iff in Hname. by rewrite Hname.
Qed.

Lemma universal_newlines_no_cr (s : string) :
  no_cr s = true -> universal_newlines s = s.
Proof.
  unfold no_cr. induction s as [|a s IH]; [done|].
  rewrite contains_char_cons, negb_orb. intros [Ha Hs]%andb_true_iff.
  cbn [universal_newlines]. change "013"%char with crc.
  apply negb_true_iff in Ha. rewrite Ascii.eqb_sym, Ha. by rewrite IH.
Qed.

Lemma contains_char_concat (c : ascii) (ls : list string) :
  Forall (fun l => contains (str1 c) l = false) ls ->
  contains (str1 c) (String.concat EmptyString ls) = false.
Proof.
  induction 1 as [|l ls Hl _ IH]; [done|].
  by rewrite concat_empty_cons, contains_char_app, Hl, IH.
Qed.

Lemma split_keeps_absent (c d : ascii) (s : string) :
  contains (str1 c) s = false ->
  Forall (fun piece => contains (str1 c) piece = false) (split d s).
Proof.
  induction s as [|a s IH]; intros Hs; [by repeat constructor|].
  rewrite contains_char_cons in Hs. apply orb_false_iff in Hs as [Ha Hs].
  specialize (IH Hs). cbn [split]. destruct (Ascii.eqb a d); [by constructor|].
  destruct (split d s) as [|h t]; [repeat constructor|].
  - by rewrite contains_char_cons, Ha.
  - apply Forall_cons in IH as [Hh Ht]. constructor; [|done].
    by rewrite contains_char_cons, Ha, Hh.
Qed.

(** What is written holds no carriage return when no key, no value and no
    header does. *)
Lemma render_env_no_cr m (header : option string) :
  map_Forall (fun k v => entry_ok k v = true) m ->
  (forall h, header = Some h -> no_cr h = true) ->
  no_cr (render_env m header) = true.
Proof.
  intros Hm Hheader. unfold no_cr. apply negb_true_iff.
  rewrite render_env_lines. apply contains_char_concat, Forall_fmap, Forall_app.
  assert (Hnl : forall l, contains (str1 crc) l = false ->
                          contains (str1 crc) (with_newline l) = false).
  { intros l Hl. unfold with_newline. by rewrite contains_char_app, Hl. }
  split.
  - destruct header as [h|]; [|constructor]. cbn [header_lines].
    destruct (is_empty h); [constructor|]. apply Forall_app. split.
    + specialize (Hheader h eq_refl). unfold no_cr in Hheader.
      apply negb_true_iff in Hheader.
      eapply Forall_impl; [apply (split_keeps_absent crc nlc h Hheader)|].
      intros l Hl. by apply Hnl.
    + by repeat constructor.
  - apply Forall_fmap, Forall_forall. intros k [v Hv]%sorted_keys_elem.
    pose proof (Hm k v Hv) as Hok.
    apply entry_ok_inv in Hok as (_ & _ & _ & _ & Hck & Hcv).
    change (contains (str1 crc) (with_newline (body_line m k)) = false).
    apply Hnl. unfold body_line. rewrite Hv.
    change (default EmptyString (Some v)) with v.
    unfold no_cr in *. apply negb_true_iff in Hck, Hcv.
    by rewrite !contains_char_app, Hck, Hcv.
Qed.


(** Reading back a file that [write_env_file] wrote gives every key of the
    map with its value stripped and rid of one pair of quotes, when every
    entry fits on a line of its own under its key (no newline and no
    carriage return in it) and the header is made of comments and holds no
    carriage return. *)
Theorem read_env_text_written (fs : FS) (env_file : Path) m (header : option string) :
  map_Forall (fun k v => entry_ok k v = true) m ->
  (forall h, header = Some h ->
     no_cr h = true /\ Forall (fun l => skipped_line l = true) (split nlc h)) ->
  read_env_file (write_env_file fs env_file m header) env_file = read_value <$> m.
Proof.
  intros Hm Hheader. unfold read_env_file, write_env_file.
  rewrite fs_write_same, universal_newlines_no_cr.
  - apply read_written_text; [done|]. intros h Hh. by apply Hheader.
  - apply render_env_no_cr; [done|]. intros h Hh. by apply Hheader.
Qed.

End FileRoundTrip.

Lemma read_env_text_written_witness :
  read_env_file
    (write_env_file no_files example_env_path
       {[ "NAME" := str1 dquote +:+ "hello world" +:+ str1 dquote ]}
       (Some (sync_header example_tfvars_path)))
    example_env_path
    = read_value <$> {[ "NAME" := str1 dquote +:+ "hello world" +:+ str1 dquote ]}.
Proof.
  apply (read_env_text_written no_files example_env_path
           {[ "NAME" := str1 dquote +:+ "hello world" +:+ str1 dquote ]}
           (Some (sync_header example_tfvars_path))).
  - by apply map_Forall_singleton.
  - intros h [= <-]. split; [reflexivity|]. by apply sync_header_skipped.
Defined.

(** ** A second run *)

Section Rerun.

Variable float_str : float_lit -> string.


End Rerun.


(** ** Keys of the destination map *)

Section EnvKeys.

Implicit Types (s : string) (a c : ascii) (m : gmap string string).

Lemma strip_head s :
  strip s = EmptyString \/ exists a t, strip s = String a t /\ is_space a = false.
Proof.
  unfold strip. destruct (lstrip_head s) as [->|(a & t & -> & Ha)]; [by left|].
  right. rewrite rstrip_cons_nonspace by done. by eexists _, _.
Qed.

Lemma partition_before_head c a s :
  (partition c (String a s)).1.1 = EmptyString
  \/ exists b, (partition c (String a s)).1.1 = String a b.
Proof.
  cbn [partition]. destruct (Ascii.eqb a c); [by left|].
  destruct (partition c s) as [[b m'] r]. right. by eexists.
Qed.

(** The key of a line that is no comment does not open a comment. *)
Lemma line_key_no_hash (raw : string) :
  startswith "#" (strip raw) = false ->
  startswith "#" (strip (partition "=" (strip raw)).1.1) = false.
Proof.
  destruct (strip_head raw) as [->|(a & t & -> & Ha)]; [done|]. intros Hh.
  destruct (partition_before_head "=" a t) as [->|[b ->]]; [done|].
  unfold strip. by rewrite lstrip_nonspace, rstrip_cons_nonspace.
Qed.

Lemma read_env_line_keys m (raw : string) :
  map_Forall (fun k _ => key_ok k /\ startswith "#" k = false) m ->
  map_Forall (fun k _ => key_ok k /\ startswith "#" k = false) (read_env_line m raw).
Proof.
  intros Hm. unfold read_env_line.
  destruct (is_empty (strip raw)); [done|]. cbn [orb].
  destruct (startswith "#" (strip raw)) eqn:Hh; [done|].
  destruct (contains "=" (strip raw)); [|done].
  pose proof (partition_key_ok (strip raw)) as Hkey.
  pose proof (line_key_no_hash raw Hh) as Hhash.
  destruct (partition "=" (strip raw)) as [[key sep] value]. cbn [fst] in *.
  by apply map_Forall_insert_2.
Qed.

(** Every key that [read_env_file] returns is stripped, holds no equals
    sign and does not open a comment. *)
Theorem read_env_file_keys (fs : FS) (env_file : Path) :
  map_Forall (fun k _ => key_ok k /\ startswith "#" k = false)
             (read_env_file fs env_file).
Proof.
  unfold read_env_file. destruct (fs env_file) as [text|]; [|apply map_Forall_empty].
  unfold read_env_text. generalize (readlines (universal_newlines text)). intros lines.
  generalize (map_Forall_empty (M := gmap string)
                (fun (k : string) (_ : string) => key_ok k /\ startswith "#" k = false)).
  generalize (∅ : gmap string string).
  induction lines as [|raw lines IH]; intros m Hm; [done|]. cbn [foldl].
  by apply IH, read_env_line_keys.
Qed.

End EnvKeys.

(** ** Texts with a point *)

Section Dotted.

Implicit Types (s : string) (a c : ascii).

Lemma contains_point_cons a s :
  contains "." (String a s) = Ascii.eqb "." a || contains "." s.
Proof. exact (contains_char_cons "." a s). Qed.

Lemma contains_char_lstrip_keep c s :
  is_space c = false -> contains (str1 c) s = true -> contains (str1 c) (lstrip s) = true.
Proof.
  intros Hc. induction s as [|a s IH]; [done|]. cbn [lstrip].
  destruct (is_space a) eqn:Ha; [|done].
  rewrite contains_char_cons. intros [Heq|H]%orb_true_iff; [|by apply IH].
  apply Ascii.eqb_eq in Heq as ->. congruence.
Qed.

Lemma contains_char_rstrip_keep c s :
  is_space c = false -> contains (str1 c) s = true -> contains (str1 c) (rstrip s) = true.
Proof.
  intros Hc. induction s as [|a s IH]; [done|]. cbn [rstrip].
  rewrite contains_char_cons. intros H.
  destruct (is_empty (rstrip s) && is_space a) eqn:E.
  - apply andb_true_iff in E as [E Ha]. apply orb_true_iff in H as [Heq|H].
    + apply Ascii.eqb_eq in Heq as ->. congruence.
    + apply IH in H. by destruct (rstrip s).
  - rewrite contains_char_cons. apply orb_true_iff in H as [->|H]; [done|].
    by rewrite IH, orb_true_r.
Qed.

Lemma all_digits_no_point s : contains "." s = true -> all_digits s = false.
Proof.
  induction s as [|a s IH]; [done|].
  rewrite contains_point_cons. cbn [all_digits].
  intros [Heq|H]%orb_true_iff.
  - by apply Ascii.eqb_eq in Heq as <-.
  - by rewrite IH, andb_false_r.
Qed.

Lemma remove_underscores_point s :
  contains "." s = true -> contains "." (remove_underscores s) = true.
Proof.
  induction s as [|a s IH]; [done|].
  rewrite contains_point_cons. cbn [remove_underscores].
  intros [Heq|H]%orb_true_iff.
  - apply Ascii.eqb_eq in Heq as <-. reflexivity.
  - destruct (Ascii.eqb a "_"); [by apply IH|].
    by rewrite contains_point_cons, IH, orb_true_r.
Qed.

Lemma split_sign_point s : contains "." s = true -> contains "." (split_sign s).2 = true.
Proof.
  destruct s as [|a s]; [done|]. rewrite contains_point_cons.
  intros [Heq|H]%orb_true_iff.
  - by apply Ascii.eqb_eq in Heq as <-.
  - unfold split_sign.
    destruct (Ascii.eqb a "-") eqn:E1; [apply Ascii.eqb_eq in E1 as ->; done|].
    destruct (Ascii.eqb a "+") eqn:E2; [apply Ascii.eqb_eq in E2 as ->; done|].
    assert (Hs : (match a with
                  | "-"%char => (true, s) | "+"%char => (false, s)
                  | _ => (false, String a s) end) = (false, String a s)).
    { apply Ascii.eqb_neq in E1, E2.
      destruct a as [[] [] [] [] [] [] [] []]; try reflexivity; congruence. }
    rewrite Hs. cbn [snd]. by rewrite contains_point_cons, H, orb_true_r.
Qed.

(** [int] refuses every text with a point. *)
Lemma py_int_point s : contains "." s = true -> py_int s = None.
Proof.
  intros H. unfold py_int.
  assert (Hs : contains "." (strip s) = true).
  { by apply (contains_char_rstrip_keep "."), (contains_char_lstrip_keep "."). }
  apply split_sign_point in Hs. destruct (split_sign (strip s)) as [neg body].
  cbn [snd] in Hs. apply remove_underscores_point, all_digits_no_point in Hs.
  by rewrite Hs, andb_false_r.
Qed.

(** On a text with a point, an integer parse after a failed float parse
    changes nothing: the numeric step of the code and the step with both
    conversions agree. *)
Theorem numeric_rule_point (v : string) :
  contains "." v = true -> numeric_rule_spec v = numeric_rule v.
Proof.
  intros H. unfold numeric_rule_spec, numeric_rule. rewrite H, (py_int_point v H).
  by destruct (py_float v).
Qed.

End Dotted.

Lemma numeric_rule_point_witness : numeric_rule_spec "3.14" = numeric_rule "3.14".
Proof. by apply (numeric_rule_point "3.14"). Defined.

(** ** Ints, written and read *)

Section IntRoundTrip.

Variable float_str : float_lit -> string.

Implicit Types (s : string) (a c : ascii) (x : N) (z : Z).

Lemma contains_comma_cons a s :
  contains "," (String a s) = Ascii.eqb "," a || contains "," s.
Proof. exact (contains_char_cons "," a s). Qed.

Lemma digit_char_cases a :
  is_digit a = true ->
  In a ["0"; "1"; "2"; "3"; "4"; "5"; "6"; "7"; "8"; "9"]%char.
Proof.
  destruct a as [[] [] [] [] [] [] [] []]; intros H; vm_compute in H;
    try discriminate H; cbn; tauto.
Qed.

Ltac digit_cases H :=
  apply digit_char_cases in H; cbn [In] in H;
  repeat (destruct H as [<-|H]; [try reflexivity|]); try destruct H.

Lemma digit_not_space a : is_digit a = true -> is_space a = false.
Proof. intros H. digit_cases H. Qed.

Lemma digit_not_underscore a : is_digit a = true -> Ascii.eqb a "_" = false.
Proof. intros H. digit_cases H. Qed.

Lemma digit_lower a : is_digit a = true -> lower_char a = a.
Proof. intros H. digit_cases H. Qed.

Lemma digit_head_facts a s :
  is_digit a = true ->
  split_sign (String a s) = (false, String a s)
  /\ Ascii.eqb a "t" = false /\ Ascii.eqb a "f" = false /\ Ascii.eqb a "n" = false
  /\ Ascii.eqb dquote a = false /\ Ascii.eqb "." a = false /\ Ascii.eqb "," a = false.
Proof. intros H. digit_cases H; by repeat split. Qed.

Lemma pretty_N_char_digit x :
  (x < 10)%N ->
  is_digit (pretty_N_char x) = true /\ (code (pretty_N_char x) - 48)%N = x.
Proof.
  intros Hx.
  assert (x = 0 \/ x = 1 \/ x = 2 \/ x = 3 \/ x = 4 \/ x = 5 \/ x = 6 \/ x = 7
          \/ x = 8 \/ x = 9)%N as H by lia.
  repeat (destruct H as [->|H]; [by split|]). by subst.
Qed.

Lemma digits_value_acc (acc : N) s :
  digits_value acc s
    = (acc * 10 ^ N.of_nat (String.length s) + digits_value 0 s)%N.
Proof.
  revert acc. induction s as [|a s IH]; intros acc.
  - cbn [digits_value String.length]. change (N.of_nat 0) with 0%N.
    rewrite N.pow_0_r. lia.
  - cbn [digits_value String.length]. rewrite IH, (IH (10 * 0 + _)%N).
    rewrite Nat2N.inj_succ, N.pow_succ_r'. ring.
Qed.

(** The digits that [pretty] puts before a tail of digits are digits, and
    the whole reads as the number followed by the tail. *)
Lemma pretty_N_go_digits x s :
  all_digits s = true ->
  all_digits (pretty_N_go x s) = true
  /\ digits_value 0 (pretty_N_go x s)
      = (x * 10 ^ N.of_nat (String.length s) + digits_value 0 s)%N.
Proof.
  revert s. induction (N.lt_wf_0 x) as [x _ IH]; intros s Hs.
  assert (x = 0 \/ 0 < x)%N as [->|Hx] by lia.
  - rewrite pretty_N_go_0. split; [done|lia].
  - rewrite pretty_N_go_step by done.
    destruct (pretty_N_char_digit (x `mod` 10)) as [Hd Hv]; [by apply N.mod_lt|].
    destruct (IH (x `div` 10)%N (N.div_lt x 10 Hx eq_refl)
                 (String (pretty_N_char (x `mod` 10)) s)) as [IH1 IH2].
    { cbn [all_digits]. by rewrite Hd, Hs. }
    split; [done|]. rewrite IH2. cbn [digits_value String.length].
    rewrite (digits_value_acc (10 * 0 + _)), Hv.
    rewrite Nat2N.inj_succ, N.pow_succ_r'.
    rewrite (N.div_mod x 10) at 3 by done. ring.
Qed.

Lemma all_digits_facts s :
  all_digits s = true ->
  lstrip s = s /\ rstrip s = s /\ remove_underscores s = s /\ lower s = s
  /\ contains "." s = false /\ contains "," s = false
  /\ forall prev, Ascii.eqb prev "_" = false -> underscores_ok prev s = true.
Proof.
  induction s as [|a s IH].
  { intros _. repeat split; try done.
    intros prev Hprev. cbn [underscores_ok]. by rewrite Hprev. }
  cbn [all_digits]. intros [Ha Hs]%andb_true_iff.
  destruct (IH Hs) as (H1 & H2 & H3 & H4 & H5 & H6 & H7).
  pose proof (digit_not_space a Ha) as Hsp.
  pose proof (digit_not_underscore a Ha) as Hu.
  destruct (digit_head_facts a s Ha) as (_ & _ & _ & _ & _ & Hp & Hc).
  repeat split.
  - by apply lstrip_nonspace.
  - by rewrite rstrip_cons_nonspace, H2.
  - cbn [remove_underscores]. by rewrite Hu, H3.
  - unfold lower in *. cbn [map_chars]. by rewrite digit_lower, H4.
  - by rewrite contains_point_cons, Hp, H5.
  - by rewrite contains_comma_cons, Hc, H6.
  - intros prev Hprev. cbn [underscores_ok]. by rewrite Hu, Hprev, H7.
Qed.

Lemma endswith_char_contains c s :
  endswith (str1 c) s = true -> contains (str1 c) s = true.
Proof.
  induction s as [|a s IH]; [done|].
  rewrite endswith_char_cons, contains_char_cons.
  destruct (is_empty s); [by intros ->|]. intros H. by rewrite IH, orb_true_r.
Qed.

(** [int] reads a text of digits as its number. *)
Lemma py_int_digits s :
  all_digits s = true -> is_empty s = false ->
  py_int s = Some (Z.of_N (digits_value 0 s))
  /\ py_int (String "-" s) = Some (- Z.of_N (digits_value 0 s))%Z.
Proof.
  intros Hs Hne. destruct (all_digits_facts s Hs) as (H1 & H2 & H3 & _ & _ & _ & H7).
  split.
  - unfold py_int, strip. rewrite H1, H2.
    destruct s as [|a s]; [done|].
    cbn [all_digits] in Hs. apply andb_true_iff in Hs as [Ha Hs'].
    destruct (digit_head_facts a s Ha) as (-> & _).
    rewrite H3, H7 by done. cbn [is_empty negb andb all_digits].
    by rewrite Ha, Hs'.
  - unfold py_int, strip. rewrite lstrip_nonspace by reflexivity.
    rewrite rstrip_cons_nonspace, H2 by reflexivity. cbn [split_sign].
    rewrite H3, (H7 "000"%char eq_refl), Hs. by destruct s.
Qed.

(** A stripped text with no comma at its end that is no keyword, is not
    quoted, has no point and that [int] reads, parses to that int. *)
Lemma parse_value_int_text s z :
  strip s = s -> endswith "," s = false -> is_keyword s = false ->
  is_quoted s = false -> contains "." s = false -> py_int s = Some z ->
  parse_value s = VInt z.
Proof.
  intros Hstrip Hc Hk Hq Hp Hz. pose proof (parse_value_unfold s) as H.
  rewrite parse_value_body_steps in H.
  assert (Hn : normalise s = s) by (unfold normalise; by rewrite Hstrip, Hc).
  rewrite Hn in H. cbv zeta in H. unfold is_keyword in Hk.
  apply orb_false_iff in Hk as [Hk Hk3]. apply orb_false_iff in Hk as [Hk1 Hk2].
  rewrite Hk1, Hk2, Hk3, Hq in H. unfold numeric_rule in H. rewrite Hp, Hz in H.
  change (Some (VInt z) = Some (parse_value s)) in H. congruence.
Qed.

(** An int that [format_env_value] writes is read back by [parse_value]
    as the same int. *)
Theorem format_then_parse_int z :
  parse_value (format_env_value float_str (VInt z)) = VInt z.
Proof.
  change (format_env_value float_str (VInt z)) with (pretty z).
  destruct z as [|p|p].
  - reflexivity.
  - assert (Hd : (pretty (Z.pos p) : string) = pretty_N_go (N.pos p) EmptyString) by done.
    rewrite Hd. set (d := pretty_N_go (N.pos p) EmptyString).
    destruct (pretty_N_go_digits (N.pos p) EmptyString eq_refl) as [Hall Hval].
    fold d in Hall, Hval. cbn [String.length digits_value] in Hval.
    change (N.of_nat 0) with 0%N in Hval. rewrite N.pow_0_r in Hval.
    assert (Hne : is_empty d = false).
    { destruct d; [|done]. cbn in Hval. lia. }
    destruct (all_digits_facts d Hall) as (H1 & H2 & _ & H4 & H5 & H6 & _).
    destruct (py_int_digits d Hall Hne) as [Hint _].
    apply parse_value_int_text.
    + unfold strip. by rewrite H1, H2.
    + destruct (endswith "," d) eqn:E; [|done].
      apply (endswith_char_contains ",") in E.
      change (contains "," d = true) in E. congruence.
    + unfold is_keyword. rewrite H4. destruct d as [|a d']; [done|].
      cbn [all_digits] in Hall. apply andb_true_iff in Hall as [Ha _].
      destruct (digit_head_facts a d' Ha) as (_ & Ht & Hf & Hn & _).
      cbn [String.eqb]. by rewrite Ht, Hf, Hn.
    + unfold is_quoted. destruct d as [|a d']; [done|].
      cbn [all_digits] in Hall. apply andb_true_iff in Hall as [Ha _].
      destruct (digit_head_facts a d' Ha) as (_ & _ & _ & _ & Hq & _).
      cbn [startswith str1]. by rewrite Hq.
    + done.
    + rewrite Hint. f_equal. lia.
  - assert (Hd : (pretty (Z.neg p) : string)
                 = String "-" (pretty_N_go (N.pos p) EmptyString)) by done.
    rewrite Hd. set (d := pretty_N_go (N.pos p) EmptyString).
    destruct (pretty_N_go_digits (N.pos p) EmptyString eq_refl) as [Hall Hval].
    fold d in Hall, Hval. cbn [String.length digits_value] in Hval.
    change (N.of_nat 0) with 0%N in Hval. rewrite N.pow_0_r in Hval.
    assert (Hne : is_empty d = false).
    { destruct d; [|done]. cbn in Hval. lia. }
    destruct (all_digits_facts d Hall) as (H1 & H2 & _ & H4 & H5 & H6 & _).
    destruct (py_int_digits d Hall Hne) as [_ Hint].
    apply parse_value_int_text.
    + unfold strip. rewrite lstrip_nonspace by reflexivity.
      by rewrite rstrip_cons_nonspace, H2.
    + rewrite (endswith_char_cons "," "-" d : endswith "," (String "-" d) = _), Hne.
      destruct (endswith "," d) eqn:E; [|done].
      apply (endswith_char_contains ",") in E.
      change (contains "," d = true) in E. congruence.
    + reflexivity.
    + reflexivity.
    + by rewrite contains_point_cons, H5.
    + rewrite Hint. f_equal. lia.
Qed.

End IntRoundTrip.

(** ** List literals *)

Section ListLiterals.

Implicit Types (s t x : string) (a c : ascii) (items : list string).

Lemma split_app_char c s rest :
  contains (str1 c) s = false -> split c (s +:+ String c rest) = s :: split c rest.
Proof.
  induction s as [|a s IH]; intros Hs.
  - change (EmptyString +:+ String c rest) with (String c rest).
    cbn [split]. by rewrite Ascii.eqb_refl.
  - rewrite contains_char_cons in Hs. apply orb_false_iff in Hs as [Ha Hs].
    rewrite app_cons. cbn [split]. rewrite Ascii.eqb_sym, Ha. by rewrite IH.
Qed.

Lemma split_no_sep_id c s : contains (str1 c) s = false -> split c s = [s].
Proof.
  induction s as [|a s IH]; intros Hs; [done|].
  rewrite contains_char_cons in Hs. apply orb_false_iff in Hs as [Ha Hs].
  cbn [split]. rewrite Ascii.eqb_sym, Ha. by rewrite IH.
Qed.

(** Splitting a joined list gives the list back when no item holds the
    separator. *)
Lemma split_concat c items :
  items <> [] -> Forall (fun x => contains (str1 c) x = false) items ->
  split c (String.concat (str1 c) items) = items.
Proof.
  intros Hne Hall. induction Hall as [|x items Hx Hall IH]; [done|].
  destruct items as [|y items]; [by apply split_no_sep_id|].
  change (String.concat (str1 c) (x :: y :: items))
    with (x +:+ String c (String.concat (str1 c) (y :: items))).
  rewrite split_app_char by done. by rewrite IH.
Qed.

Lemma lstrip_app_fixed x t :
  lstrip x = x -> is_empty x = false -> lstrip (x +:+ t) = x +:+ t.
Proof.
  destruct x as [|a x]; [done|]. intros H _. rewrite app_cons.
  destruct (is_space a) eqn:Ha; [|by apply lstrip_nonspace].
  pose proof (lstrip_length_lt a x Ha) as Hlt. rewrite H in Hlt. lia.
Qed.

Lemma join_items_stripped items :
  items <> [] -> Forall list_item_ok items ->
  strip (join "," items) = join "," items /\ is_empty (join "," items) = false.
Proof.
  intros Hne Hall. unfold join.
  assert (Hr : rstrip (String.concat "," items) = String.concat "," items
               /\ is_empty (String.concat "," items) = false).
  { induction Hall as [|x items (Hx & Hxe & _) Hall IH]; [done|].
    destruct items as [|y items].
    - split; [by apply strip_fixed_rstrip|done].
    - destruct IH as [IH1 IH2]; [done|].
      change (String.concat "," (x :: y :: items))
        with (x +:+ String "," (String.concat "," (y :: items))).
      split; [|by destruct x].
      rewrite rstrip_app, rstrip_cons_nonspace by reflexivity.
      cbn [is_empty]. by rewrite IH1. }
  destruct Hr as [Hr Hemp]. split; [|done].
  unfold strip. destruct Hall as [|x items (Hx & Hxe & _) Hall]; [done|].
  assert (Hl : lstrip (String.concat "," (x :: items)) = String.concat "," (x :: items)).
  { destruct items as [|y items]; [by apply strip_fixed_lstrip|].
    change (String.concat "," (x :: y :: items))
      with (x +:+ String "," (String.concat "," (y :: items))).
    apply lstrip_app_fixed; [by apply strip_fixed_lstrip|done]. }
  by rewrite Hl.
Qed.

Lemma numeric_rule_bracket s :
  strip (String "[" s) = String "[" s -> numeric_rule (String "[" s) = None.
Proof.
  intros Hstrip. unfold numeric_rule, py_float, py_int. rewrite Hstrip.
  destruct (contains "." (String "[" s)).
  - destruct (underscores_ok "000" (String "[" s)); reflexivity.
  - cbn [split_sign remove_underscores all_digits]. simpl. by rewrite andb_false_r.
Qed.

(** A list literal whose items are stripped, not empty and free of commas
    parses to the list of the values of its items, in their order. *)
Theorem parse_value_list items :
  items <> [] -> Forall list_item_ok items ->
  parse_value ("[" +:+ join "," items +:+ "]") = VList (parse_value <$> items).
Proof.
  intros Hne Hall. destruct (join_items_stripped items Hne Hall) as [Hjs Hje].
  set (j := join "," items) in *.
  change ("[" +:+ j +:+ "]") with (String "[" (j +:+ str1 "]")).
  set (q := String "[" (j +:+ str1 "]")).
  assert (He : endswith (str1 "]") q = true).
  { unfold q. rewrite endswith_char_cons, is_empty_app_char. apply endswith_app_char. }
  assert (Hstrip : strip q = q).
  { unfold strip, q. rewrite lstrip_nonspace by reflexivity.
    by apply (rstrip_endswith "]"). }
  assert (Hn : normalise q = q).
  { unfold normalise. rewrite Hstrip. destruct (endswith "," q) eqn:Hc; [|done].
    by pose proof (endswith_char_unique _ _ _ Hc He). }
  assert (Hl : is_list_literal q = true).
  { unfold is_list_literal. change (endswith "]" q) with (endswith (str1 "]") q).
    by rewrite He. }
  assert (Hslice : slice_1_m1 q = j).
  { unfold slice_1_m1, q. cbn [tail]. apply drop_last_app_char. }
  pose proof (parse_value_unfold q) as H.
  rewrite parse_value_body_steps, Hn in H. cbv zeta in H.
  change (String.eqb (lower q) "true") with false in H.
  change (String.eqb (lower q) "false") with false in H.
  change (String.eqb (lower q) "null") with false in H.
  change (is_quoted q) with (false && endswith (str1 dquote) q) in H. cbn [andb] in H.
  assert (Hnum : numeric_rule q = None) by apply (numeric_rule_bracket _ Hstrip).
  rewrite Hnum, Hl, Hslice, Hjs, Hje in H.
  unfold j, join in H. rewrite (split_concat ",") in H; [|done|].
  2:{ eapply Forall_impl; [exact Hall|]. by intros x (_ & _ & Hx). }
  assert (Hmap : List.map strip items = items).
  { clear -Hall. induction Hall as [|x items (Hx & _) _ IH]; [done|].
    cbn [List.map]. by rewrite Hx, IH. }
  assert (Hfilter : List.filter nonempty items = items).
  { clear -Hall. induction Hall as [|x items (_ & Hx & _) _ IH]; [done|].
    cbn [List.filter]. unfold nonempty at 1. by rewrite Hx, IH. }
  rewrite Hmap, Hfilter, mapM_Some_fmap in H. cbn [fmap option_fmap option_map] in H.
  congruence.
Qed.






End ListLiterals.


Lemma parse_value_list_witness :
  parse_value ("[" +:+ join "," ["1"; "true"; "x y"] +:+ "]")
    = VList (parse_value <$> ["1"; "true"; "x y"]).
Proof.
  apply (parse_value_list ["1"; "true"; "x y"]); [done|].
  repeat constructor.
Defined.

(** ** A quoted value, read by the destination codec *)

Section QuotedReadBack.

Variable float_str : float_lit -> string.

(** What [read_env_file] makes of the text that [format_env_value] writes
    for a str it puts in quotes: the quotes are removed and the escapes
    stay, so the str itself comes back when it holds no backslash and no
    double quote, and the written text never does. *)
Theorem format_then_read_quoted_str (s : string) :
  needs_quotes s = true ->
  read_value (format_env_value float_str (VStr s)) = escaped s
  /\ read_value (format_env_value float_str (VStr s))
      <> format_env_value float_str (VStr s).
Proof.
  intros Hq.
  assert (Hf : format_env_value float_str (VStr s)
               = String dquote (escaped s +:+ str1 dquote)).
  { unfold format_env_value, py_str. fold (needs_quotes s). by rewrite Hq. }
  rewrite Hf. set (q := String dquote (escaped s +:+ str1 dquote)).
  assert (He : endswith (str1 dquote) q = true).
  { unfold q. rewrite endswith_char_cons, is_empty_app_char. apply endswith_app_char. }
  assert (Hstrip : strip q = q).
  { unfold strip, q. rewrite lstrip_nonspace by reflexivity.
    by apply (rstrip_endswith dquote). }
  assert (Hr : read_value q = escaped s).
  { unfold read_value, unquote. rewrite Hstrip, He.
    change (startswith (str1 dquote) q) with true. cbn [andb orb].
    unfold slice_1_m1, q. cbn [tail]. apply drop_last_app_char. }
  split; [done|]. rewrite Hr. intros Heq.
  apply (f_equal String.length) in Heq. unfold q in Heq.
  cbn [String.length] in Heq.
  assert (Hlen : forall a b, String.length (a +:+ b) = String.length a + String.length b).
  { intros a b. induction a as [|c a IH]; [done|]. rewrite app_cons. cbn. by rewrite IH. }
  rewrite Hlen in Heq. cbn in Heq. lia.
Qed.

End QuotedReadBack.

Lemma format_then_read_quoted_str_witness :
  read_value (format_env_value float_str_unused (VStr "hello world"))
    = escaped "hello world".
Proof.
  by apply (proj1 (format_then_read_quoted_str float_str_unused "hello world" eq_refl)).
Defined.
